(** * The search session coordinator of [src/lib/hooks/useHomePage.ts]

    A shallow embedding of the [useHomePage] hook: its three pieces of
    React state, the [hasLoadedCache] ref, the three effects, the two
    exported actions and the location callback of line 32.  A handler is a function from the values its closure
    captured (the render it belongs to) and the collaborators it reads
    (settings store, location, cache) to the ordered list of calls it
    makes: state setters, Executor commands and navigation.  State setters
    do not change what the running closure sees; they take effect when
    React commits the batch, which is [commit]. *)

From Stdlib Require Import String Ascii List Bool Arith NArith ZArith Lia.
Import ListNotations.

Set Implicit Arguments.

(** ** JavaScript strings *)

Module JsString.

(** A string is a sequence of UTF-16 code units. *)
Definition t : Type := list N.

(** A string literal with ASCII characters only. *)
Definition lit (s : string) : t := map N_of_ascii (list_ascii_of_string s).

(** [===] on strings. *)
Fixpoint eqb (a b : t) : bool :=
  match a, b with
  | [], [] => true
  | x :: a', y :: b' => N.eqb x y && eqb a' b'
  | _, _ => false
  end.

(** A string used as a condition: only [''] is falsy. *)
Definition truthy (s : t) : bool :=
  match s with
  | [] => false
  | _ :: _ => true
  end.

(** ECMAScript WhiteSpace and LineTerminator code points, the ones
    [String.prototype.trim] strips: TAB, LF, VT, FF, CR, SP, NBSP,
    U+1680, U+2000..U+200A, U+2028, U+2029, U+202F, U+205F, U+3000 and
    U+FEFF. *)
Definition is_white_space (c : N) : bool :=
  ((9 <=? c) && (c <=? 13) || (c =? 32) || (c =? 160) || (c =? 5760)
   || (8192 <=? c) && (c <=? 8202) || (c =? 8232) || (c =? 8233)
   || (c =? 8239) || (c =? 8287) || (c =? 12288) || (c =? 65279))%N.

Fixpoint trimStart (s : t) : t :=
  match s with
  | [] => []
  | c :: s' => if is_white_space c then trimStart s' else s
  end.

Definition trimEnd (s : t) : t := rev (trimStart (rev s)).

Definition trim (s : t) : t := trimEnd (trimStart s).

(** Blank or whitespace-only: every code unit is white space. *)
Definition whitespace_only (s : t) : bool := forallb is_white_space s.

End JsString.

(** ** [encodeURIComponent]

    Line 32 builds the shareable location with it.  The definition
    follows ECMAScript's [Encode] with the unreserved set of
    [encodeURIComponent]: a code unit of the set is kept, anything else
    is read as a code point, written in UTF-8 and each octet escaped as
    ['%'] and two upper-case hexadecimal digits; an unpaired surrogate
    throws [URIError], which is [None] here. *)

Module Uri.

(** Letters, digits and [- _ . ! ~ * ' ( )]. *)
Definition is_unreserved (c : N) : bool :=
  ((65 <=? c) && (c <=? 90) || (97 <=? c) && (c <=? 122)
   || (48 <=? c) && (c <=? 57)
   || (c =? 45) || (c =? 95) || (c =? 46) || (c =? 33) || (c =? 126)
   || (c =? 42) || (c =? 39) || (c =? 40) || (c =? 41))%N.

Definition is_high_surrogate (c : N) : bool :=
  ((55296 <=? c) && (c <=? 56319))%N.

Definition is_low_surrogate (c : N) : bool :=
  ((56320 <=? c) && (c <=? 57343))%N.

(** A code unit of a JavaScript string is below 2^16. *)
Definition code_units (s : JsString.t) : Prop :=
  Forall (fun c => (c < 65536)%N) s.

(** [String.prototype.isWellFormed]: no unpaired surrogate. *)
Fixpoint isWellFormed (s : JsString.t) : bool :=
  match s with
  | [] => true
  | c :: s' =>
      if is_high_surrogate c then
        match s' with
        | lo :: s'' => is_low_surrogate lo && isWellFormed s''
        | [] => false
        end
      else negb (is_low_surrogate c) && isWellFormed s'
  end.

Definition hex_digit (d : N) : N :=
  (if d <? 10 then 48 + d else 55 + d)%N.

(** One octet as ['%XX']. *)
Definition percent (b : N) : JsString.t :=
  [37; hex_digit (b / 16); hex_digit (b mod 16)]%N.

(** The UTF-8 octets of a code point. *)
Definition utf8 (cp : N) : list N :=
  (if cp <? 128 then [cp]
   else if cp <? 2048 then [192 + cp / 64; 128 + cp mod 64]
   else if cp <? 65536 then
     [224 + cp / 4096; 128 + (cp / 64) mod 64; 128 + cp mod 64]
   else
     [240 + cp / 262144; 128 + (cp / 4096) mod 64;
      128 + (cp / 64) mod 64; 128 + cp mod 64])%N.

Definition escape (cp : N) : JsString.t := flat_map percent (utf8 cp).

(** [UTF16SurrogatePairToCodePoint] *)
Definition pair_to_code_point (hi lo : N) : N :=
  ((hi - 55296) * 1024 + (lo - 56320) + 65536)%N.

Fixpoint encodeURIComponent (s : JsString.t) : option JsString.t :=
  match s with
  | [] => Some []
  | c :: s' =>
      if is_unreserved c then option_map (cons c) (encodeURIComponent s')
      else if is_high_surrogate c then
        match s' with
        | lo :: s'' =>
            if is_low_surrogate lo
            then option_map (app (escape (pair_to_code_point c lo)))
                   (encodeURIComponent s'')
            else None
        | [] => None
        end
      else if is_low_surrogate c then None
      else option_map (app (escape c)) (encodeURIComponent s')
  end.

(** The three ways [encodeURIComponent] takes its first step. *)
Inductive first_step (c : N) (s e : JsString.t) : Prop :=
| Kept (e' : JsString.t) :
    is_unreserved c = true ->
    encodeURIComponent s = Some e' -> e = c :: e' -> first_step c s e
| Pair (lo : N) (s' e' : JsString.t) :
    is_high_surrogate c = true -> is_low_surrogate lo = true ->
    s = lo :: s' -> encodeURIComponent s' = Some e' ->
    e = escape (pair_to_code_point c lo) ++ e' -> first_step c s e
| Escaped (e' : JsString.t) :
    is_unreserved c = false -> is_high_surrogate c = false ->
    is_low_surrogate c = false ->
    encodeURIComponent s = Some e' -> e = escape c ++ e' ->
    first_step c s e.

(** What may appear in an encoded component. *)
Definition safe (c : N) : Prop := is_unreserved c = true \/ c = 37%N.

(** *** An inverse

    Not a function of the hook: the proofs use it to show that the
    encoding loses nothing.  [octets] undoes the escapes, [units] reads
    the octets back as UTF-16. *)

Definition hex_value (c : N) : N :=
  (if c <? 58 then c - 48 else c - 55)%N.

Inductive token : Type :=
| Literal (c : N)
| Octet (b : N).

Fixpoint octets (s : JsString.t) : list token :=
  match s with
  | [] => []
  | c :: s1 =>
      if (c =? 37)%N then
        match s1 with
        | h :: l :: rest =>
            Octet (16 * hex_value h + hex_value l)%N :: octets rest
        | _ => []
        end
      else Literal c :: octets s1
  end.

Definition units_of_code_point (cp : N) : JsString.t :=
  (if cp <? 65536 then [cp]
   else [55296 + (cp - 65536) / 1024; 56320 + (cp - 65536) mod 1024])%N.

Fixpoint units (ts : list token) : JsString.t :=
  match ts with
  | [] => []
  | Literal c :: r => c :: units r
  | Octet b0 :: r =>
      if (b0 <? 128)%N then b0 :: units r
      else if (b0 <? 224)%N then
        match r with
        | Octet b1 :: r1 =>
            units_of_code_point ((b0 - 192) * 64 + (b1 - 128))%N
            ++ units r1
        | _ => []
        end
      else if (b0 <? 240)%N then
        match r with
        | Octet b1 :: Octet b2 :: r2 =>
            units_of_code_point
              ((b0 - 224) * 4096 + (b1 - 128) * 64 + (b2 - 128))%N
            ++ units r2
        | _ => []
        end
      else
        match r with
        | Octet b1 :: Octet b2 :: Octet b3 :: r3 =>
            units_of_code_point
              ((b0 - 240) * 262144 + (b1 - 128) * 4096 + (b2 - 128) * 64
               + (b3 - 128))%N
            ++ units r3
        | _ => []
        end
  end.

Definition unescape (s : JsString.t) : JsString.t := units (octets s).

End Uri.

(** ** The hook *)

Section Coordinator.

(** Types declared outside the hook's file: a search result, a source
    of the settings store with its [enabled] flag, and the Executor's
    [availableSources] value. *)
Variables Result Source Avail : Type.
Variable enabled : Source -> bool.

(** A sort key is a string at run time ([useState('default')]). *)
Definition SortKey : Type := JsString.t.

(** [settingsStore.getSettings()] *)
Record Settings : Type := {
  sortBy : SortKey;
  sources : list Source
}.

(** What [loadFromCache()] returns when it is not null. *)
Record CachedSearch : Type := {
  cached_query : JsString.t;
  cached_results : list Result;
  cached_availableSources : Avail
}.

(** The three [useState] cells. *)
Record Session : Type := {
  query : JsString.t;
  hasSearched : bool;
  currentSortBy : SortKey
}.

Definition initialSession : Session :=
  {| query := [];
     hasSearched := false;
     currentSortBy := JsString.lit "default" |}.

(** The Executor telemetry the handlers read. *)
Record Progress : Type := {
  loading : bool;
  results : list Result
}.

(** Identity of the values that appear in dependency arrays and come
    from hooks outside this file. *)
Record Identities : Type := {
  applySorting_id : nat;
  performSearch_id : nat;
  searchParams_id : nat;
  loadFromCache_id : nat;
  loadCachedResults_id : nat
}.

(** What the closures of one render capture. *)
Record Render : Type := {
  session : Session;
  progress : Progress;
  ids : Identities
}.

(** The calls a handler can make. *)
Inductive command : Type :=
| SetQuery (q : JsString.t)
| SetHasSearched (b : bool)
| SetCurrentSortBy (k : SortKey)
| PerformSearch (q : JsString.t) (enabledSources : list Source) (k : SortKey)
| ResetSearch
| LoadCachedResults (rs : list Result) (avail : Avail)
| ApplySorting (k : SortKey)
| RouterReplace (url : JsString.t).

Definition trace : Type := list command.

(** React applies the queued setter calls in order. *)
Definition set_state (s : Session) (c : command) : Session :=
  match c with
  | SetQuery q =>
      {| query := q; hasSearched := hasSearched s;
         currentSortBy := currentSortBy s |}
  | SetHasSearched b =>
      {| query := query s; hasSearched := b;
         currentSortBy := currentSortBy s |}
  | SetCurrentSortBy k =>
      {| query := query s; hasSearched := hasSearched s;
         currentSortBy := k |}
  | _ => s
  end.

Definition commit (s : Session) (tr : trace) : Session :=
  fold_left set_state tr s.

Definition is_search (c : command) : bool :=
  match c with
  | PerformSearch _ _ _ => true
  | _ => false
  end.

Definition is_resort (c : command) : bool :=
  match c with
  | ApplySorting _ => true
  | _ => false
  end.

Definition is_executor_command (c : command) : bool :=
  match c with
  | PerformSearch _ _ _ | ResetSearch | LoadCachedResults _ _
  | ApplySorting _ => true
  | _ => false
  end.

Definition searches (tr : trace) : trace := filter is_search tr.
Definition resorts (tr : trace) : trace := filter is_resort tr.
Definition executor_commands (tr : trace) : trace :=
  filter is_executor_command tr.

(** *** Lines 36-40: the re-sort effect *)
Definition resortEffect (r : Render) : trace :=
  if hasSearched (session r) && (0 <? length (results (progress r)))
  then [ApplySorting (currentSortBy (session r))]
  else [].

(** *** Lines 44-65: [updateSettings]

    [sortSync] is its first block, lines 47-50. *)
Definition sortSync (r : Render) (settings : Settings) : trace :=
  if negb (JsString.eqb (sortBy settings) (currentSortBy (session r)))
  then [SetCurrentSortBy (sortBy settings)]
  else [].

Definition updateSettings (r : Render) (settings : Settings) : trace :=
  sortSync r settings
  ++
  let enabledSources := filter enabled (sources settings) in
  let hasSources := 0 <? length enabledSources in
  if JsString.truthy (query (session r)) && hasSources
     && (negb (hasSearched (session r))
         || (length (results (progress r)) =? 0))
     && negb (loading (progress r))
  then [PerformSearch (query (session r)) enabledSources (sortBy settings);
        SetHasSearched true]
  else [].

(** *** Lines 94-110: [handleSearch] *)
Definition handleSearch (r : Render) (settings : Settings)
    (searchQuery : JsString.t) : trace :=
  if negb (JsString.truthy (JsString.trim searchQuery)) then []
  else
    SetQuery searchQuery :: SetHasSearched true ::
    let enabledSources := filter enabled (sources settings) in
    if length enabledSources =? 0 then []
    else [PerformSearch searchQuery enabledSources
            (currentSortBy (session r))].

(** *** Lines 112-117: [handleReset] *)
Definition handleReset : trace :=
  [SetHasSearched false; SetQuery []; ResetSearch;
   RouterReplace (JsString.lit "/")].

(** *** Lines 76-92: the mount-restore effect

    [cache_hit] is the test of line 85. *)
Definition cache_hit (urlQuery : JsString.t)
    (cached : option CachedSearch) : bool :=
  match cached with
  | None => false
  | Some c =>
      JsString.eqb (cached_query c) urlQuery
      && (0 <? length (cached_results c))
  end.

(** The first argument is the [handleSearch] closure of the render, the
    second the value of [hasLoadedCache.current]; the result carries the
    ref's new value. *)
Definition mountRestore (handleSearch : JsString.t -> trace)
    (hasLoadedCache : bool) (urlQuery : option JsString.t)
    (cached : option CachedSearch) : bool * trace :=
  if hasLoadedCache then (true, [])
  else
    (true,
     match urlQuery with
     | None => []
     | Some q =>
         if JsString.truthy q then
           SetQuery q ::
           match cached with
           | Some c =>
               if JsString.eqb (cached_query c) q
                  && (0 <? length (cached_results c))
               then [SetHasSearched true;
                     LoadCachedResults (cached_results c)
                       (cached_availableSources c)]
               else handleSearch q
           | None => handleSearch q
           end
         else []
     end).

(** *** The effects under React's scheduling

    The collaborators as one commit sees them. *)
Record Env : Type := {
  store : Settings;
  location_q : option JsString.t;
  cache : option CachedSearch
}.

(** What persists between commits: the ref, the render of the last
    commit (whose dependency arrays the next one is compared with) and
    the render whose [updateSettings] closure is subscribed to the
    settings store. *)
Record Fiber : Type := {
  hasLoadedCache : bool;
  lastRender : option Render;
  subscriber : option Render
}.

Definition unmounted : Fiber :=
  {| hasLoadedCache := false; lastRender := None; subscriber := None |}.

(** Line 40 *)
Definition resortDeps (r : Render) : SortKey * nat * bool * nat :=
  (currentSortBy (session r), applySorting_id (ids r),
   hasSearched (session r), length (results (progress r))).

(** Line 73 *)
Definition settingsDeps (r : Render)
    : JsString.t * bool * nat * bool * nat * SortKey :=
  (query (session r), hasSearched (session r),
   length (results (progress r)), loading (progress r),
   performSearch_id (ids r), currentSortBy (session r)).

(** Line 92 *)
Definition mountDeps (r : Render) : nat * nat * nat :=
  (searchParams_id (ids r), loadFromCache_id (ids r),
   loadCachedResults_id (ids r)).

Definition same_resortDeps (a b : Render) : bool :=
  let '(k, f, h, n) := resortDeps a in
  let '(k', f', h', n') := resortDeps b in
  JsString.eqb k k' && (f =? f') && Bool.eqb h h' && (n =? n').

Definition same_settingsDeps (a b : Render) : bool :=
  let '(q, h, n, l, f, k) := settingsDeps a in
  let '(q', h', n', l', f', k') := settingsDeps b in
  JsString.eqb q q' && Bool.eqb h h' && (n =? n') && Bool.eqb l l'
  && (f =? f') && JsString.eqb k k'.

Definition same_mountDeps (a b : Render) : bool :=
  let '(x, y, z) := mountDeps a in
  let '(x', y', z') := mountDeps b in
  (x =? x') && (y =? y') && (z =? z').

(** An effect runs on mount and whenever a dependency changed. *)
Definition runs (f : Fiber) (same : Render -> Render -> bool)
    (cur : Render) : bool :=
  match lastRender f with
  | None => true
  | Some prev => negb (same prev cur)
  end.

(** The effects of one commit, in the order the hook declares them. *)
Definition commitEffects (f : Fiber) (cur : Render) (env : Env)
    : Fiber * trace :=
  let t1 := if runs f same_resortDeps cur then resortEffect cur else [] in
  let resubscribe := runs f same_settingsDeps cur in
  let t2 := if resubscribe then updateSettings cur (store env) else [] in
  let m :=
    if runs f same_mountDeps cur
    then mountRestore (handleSearch cur (store env)) (hasLoadedCache f)
           (location_q env) (cache env)
    else (hasLoadedCache f, []) in
  ({| hasLoadedCache := fst m;
      lastRender := Some cur;
      subscriber := if resubscribe then Some cur else subscriber f |},
   t1 ++ t2 ++ snd m).

(** The first commit: the state cells hold their initial values. *)
Definition firstRender (p : Progress) (i : Identities) : Render :=
  {| session := initialSession; progress := p; ids := i |}.

Definition mount (p : Progress) (i : Identities) (env : Env)
    : Fiber * trace :=
  commitEffects unmounted (firstRender p i) env.

(** A settings-store notification calls the subscribed closure. *)
Definition notify (f : Fiber) (settings : Settings) : trace :=
  match subscriber f with
  | Some r => updateSettings r settings
  | None => []
  end.

(** The fibers of a mounted component. *)
Inductive reachable : Fiber -> Prop :=
| reach_mount : forall p i env, reachable (fst (mount p i env))
| reach_commit : forall f cur env,
    reachable f -> reachable (fst (commitEffects f cur env)).

(** The invariant of [reachable]: the ref is set, and the subscribed
    closure agrees with the last render on every dependency of the
    settings effect. *)
Definition mounted (f : Fiber) : Prop :=
  hasLoadedCache f = true
  /\ exists last sub,
       lastRender f = Some last /\ subscriber f = Some sub
       /\ settingsDeps sub = settingsDeps last.

End Coordinator.

Arguments initialSession : clear implicits.
Arguments handleReset {Result Source Avail}.
Arguments unmounted {Result}.
Arguments handleSearch {Result Source Avail} enabled r settings searchQuery.
Arguments updateSettings {Result Source Avail} enabled r settings.
Arguments sortSync {Result Source Avail} r settings.
Arguments resortEffect {Result Source Avail} r.
Arguments commit {Result Source Avail} s tr.
Arguments commitEffects {Result Source Avail} enabled f cur env.
Arguments mount {Result Source Avail} enabled p i env.
Arguments notify {Result Source} Avail enabled f settings.
Arguments reachable {Result Source} Avail enabled f.
Arguments firstRender {Result} p i.
Arguments mounted {Result} f.
Arguments ResetSearch {Result Source Avail}.
Arguments SetQuery {Result Source Avail} q.
Arguments SetHasSearched {Result Source Avail} b.
Arguments SetCurrentSortBy {Result Source Avail} k.
Arguments ApplySorting {Result Source Avail} k.
Arguments RouterReplace {Result Source Avail} url.
Arguments PerformSearch {Result Source Avail} q enabledSources k.
Arguments LoadCachedResults {Result Source Avail} rs avail.

(** *** The batches of calls the hook makes

    One batch is what runs to completion in response to one event: the
    effects of the first commit, the effects of a later commit, a
    settings-store notification, or one of the two exported actions.
    The first argument is the settings-store snapshot the batch reads. *)

Section Batches.

Variables Result Source Avail : Type.
Variable enabled : Source -> bool.

(** The outcomes of the retry of [updateSettings] (lines 60-64), of
    [handleSearch] and of the mount-restore effect, with the conditions
    under which the source takes each branch. *)
Inductive retry_shape (r : Render Result) (st : Settings Source)
    : trace Result Source Avail -> Prop :=
| NoRetry : retry_shape r st []
| Retry :
    query (session r) <> [] ->
    filter enabled (sources st) <> [] ->
    hasSearched (session r) = false \/ results (progress r) = [] ->
    loading (progress r) = false ->
    retry_shape r st
      [PerformSearch (query (session r)) (filter enabled (sources st))
         (sortBy st);
       SetHasSearched true].

Inductive search_shape (r : Render Result) (st : Settings Source)
    (q : JsString.t) : trace Result Source Avail -> Prop :=
| Ignored :
    JsString.whitespace_only q = true -> search_shape r st q []
| Deferred :
    JsString.whitespace_only q = false ->
    filter enabled (sources st) = [] ->
    search_shape r st q [SetQuery q; SetHasSearched true]
| Searched :
    JsString.whitespace_only q = false ->
    filter enabled (sources st) <> [] ->
    search_shape r st q
      [SetQuery q; SetHasSearched true;
       PerformSearch q (filter enabled (sources st))
         (currentSortBy (session r))].

Inductive restore_shape (hs : JsString.t -> trace Result Source Avail)
    (loc : option JsString.t) (cached : option (CachedSearch Result Avail))
    : trace Result Source Avail -> Prop :=
| NoQuery :
    loc = None \/ loc = Some [] -> restore_shape hs loc cached []
| Restored : forall q c,
    loc = Some q -> q <> [] -> cached = Some c ->
    cached_query c = q -> cached_results c <> [] ->
    restore_shape hs loc cached
      [SetQuery q; SetHasSearched true;
       LoadCachedResults (cached_results c) (cached_availableSources c)]
| Missed : forall q,
    loc = Some q -> q <> [] -> cache_hit q cached = false ->
    restore_shape hs loc cached (SetQuery q :: hs q).

Inductive emitted
    : Settings Source -> trace Result Source Avail -> Prop :=
| emit_mount : forall p i env,
    emitted (store env) (snd (mount enabled p i env))
| emit_commit : forall f cur env,
    reachable Avail enabled f ->
    emitted (store env) (snd (commitEffects enabled f cur env))
| emit_notify : forall f st,
    reachable Avail enabled f -> emitted st (notify Avail enabled f st)
| emit_search : forall r st q,
    emitted st (handleSearch enabled r st q)
| emit_reset : forall st, emitted st handleReset.

End Batches.

Arguments emitted {Result Source Avail} enabled _ _.
Arguments retry_shape {Result Source Avail} enabled r st _.
Arguments search_shape {Result Source Avail} enabled r st q _.
Arguments restore_shape {Result Source Avail} hs loc cached _.

(** *** Line 32: the callback handed to [useParallelSearch]

    It replaces the location by [/?q=] and the encoded query; when
    [encodeURIComponent] throws, [router.replace] is not reached. *)
Definition reflectQuery {Result Source Avail : Type} (q : JsString.t)
    : option (command Result Source Avail) :=
  option_map (fun e => RouterReplace (JsString.lit "/?q=" ++ e))
    (Uri.encodeURIComponent q).


(** ** Concrete collaborators for the scenarios of the specification *)

Module Scenario.

(** A source is its identifier and its flag; a result is a number. *)
Definition source : Type := (JsString.t * bool)%type.
Definition enabled (s : source) : bool := snd s.

Definition cats : JsString.t := JsString.lit "cats".
Definition dogs : JsString.t := JsString.lit "dogs".
Definition blank : JsString.t := JsString.lit "  ".
Definition rating : SortKey := JsString.lit "rating".

Definition s1 : source := (JsString.lit "s1", true).
Definition s2 : source := (JsString.lit "s2", false).

Definition idle : Progress nat := {| loading := false; results := [] |}.
Definition busy : Progress nat := {| loading := true; results := [] |}.
Definition shown : Progress nat := {| loading := false; results := [7] |}.

Definition fns : Identities :=
  {| applySorting_id := 0; performSearch_id := 1; searchParams_id := 2;
     loadFromCache_id := 3; loadCachedResults_id := 4 |}.

Definition no_sources : Settings source :=
  {| sortBy := JsString.lit "default"; sources := [s2] |}.
Definition one_source : Settings source :=
  {| sortBy := rating; sources := [s2; s1] |}.

Definition record (q : JsString.t) : CachedSearch nat (list source) :=
  {| cached_query := q; cached_results := [7];
     cached_availableSources := [s1] |}.

Definition at_location (q : JsString.t) (st : Settings source)
    (c : option (CachedSearch nat (list source)))
    : Env nat source (list source) :=
  {| store := st; location_q := Some q; cache := c |}.

Definition render (q : JsString.t) (h : bool) (k : SortKey)
    (p : Progress nat) : Render nat :=
  {| session := {| query := q; hasSearched := h; currentSortBy := k |};
     progress := p; ids := fns |}.

(** A component that has mounted at [?q=cats], and the same component
    after a commit during which its search is in flight. *)
Definition search_env : Env nat source (list source) :=
  at_location cats one_source None.

Definition first_fiber : Fiber nat := fst (mount enabled idle fns search_env).

Definition searching : Render nat := render cats true rating busy.

Definition searching_fiber : Fiber nat :=
  fst (commitEffects enabled first_fiber searching search_env).

Definition settled : Render nat := render cats true rating shown.

Definition settled_fiber : Fiber nat :=
  fst (commitEffects enabled first_fiber settled search_env).

Definition no_location : Env nat source (list source) :=
  {| store := one_source; location_q := None;
     cache := Some (record dogs) |}.

End Scenario.

(** ** Facts about strings *)

Unset Implicit Arguments.

Module JsStringFacts.
Import JsString.

Lemma eqb_eq (a b : t) : eqb a b = true <-> a = b.
Proof.
  revert b; induction a as [|x a IH]; intros [|y b]; simpl;
    try (split; [discriminate | congruence]); try tauto.
  rewrite andb_true_iff, N.eqb_eq, IH.
  split; [intros [-> ->]; reflexivity | intros [= -> ->]; tauto].
Qed.

Lemma eqb_refl (a : t) : eqb a a = true.
Proof. apply eqb_eq; reflexivity. Qed.

Lemma eqb_neq (a b : t) : eqb a b = false <-> a <> b.
Proof.
  rewrite <- eqb_eq. destruct (eqb a b); split; congruence.
Qed.

Lemma truthy_iff (s : t) : truthy s = true <-> s <> [].
Proof. destruct s; simpl; split; congruence. Qed.

Lemma trimStart_blank (s : t) :
  whitespace_only s = true -> trimStart s = [].
Proof.
  induction s as [|c s IH]; simpl; [reflexivity|].
  intros [Hc Hs]%andb_true_iff. rewrite Hc. auto.
Qed.

(** What [trimStart] leaves starts with a character that is not white
    space, unless the whole string was white space. *)
Lemma trimStart_head (s : t) :
  match trimStart s with
  | [] => whitespace_only s = true
  | c :: _ => is_white_space c = false
  end.
Proof.
  induction s as [|c s IH]; simpl; [reflexivity|].
  destruct (is_white_space c) eqn:Hc; simpl.
  - destruct (trimStart s); auto.
  - exact Hc.
Qed.

Lemma whitespace_only_rev (s : t) :
  whitespace_only (rev s) = whitespace_only s.
Proof.
  unfold whitespace_only.
  destruct (forallb is_white_space s) eqn:H.
  - apply forallb_forall. intros x Hx%in_rev.
    rewrite forallb_forall in H. auto.
  - destruct (forallb is_white_space (rev s)) eqn:H'; [|reflexivity].
    rewrite <- H. symmetry. apply forallb_forall. intros x Hx.
    rewrite forallb_forall in H'. apply H'. apply in_rev in Hx. exact Hx.
Qed.

Lemma rev_nil_inv (A : Type) (l : list A) : rev l = [] -> l = [].
Proof.
  intros H. apply (f_equal (@rev A)) in H.
  rewrite rev_involutive in H. exact H.
Qed.

(** [trim] returns the empty string exactly on the strings that are
    blank or whitespace-only. *)
Lemma trim_blank_iff (s : t) : trim s = [] <-> whitespace_only s = true.
Proof.
  unfold trim, trimEnd. split.
  - intros H%rev_nil_inv.
    pose proof (trimStart_head (rev (trimStart s))) as Hr.
    rewrite H, whitespace_only_rev in Hr.
    pose proof (trimStart_head s) as Hs.
    destruct (trimStart s) as [|c s'] eqn:E; [exact Hs|].
    simpl in Hr. rewrite Hs in Hr. discriminate.
  - intros H. rewrite (trimStart_blank s H). reflexivity.
Qed.

Lemma truthy_trim (s : t) : truthy (trim s) = negb (whitespace_only s).
Proof.
  destruct (whitespace_only s) eqn:H.
  - apply trim_blank_iff in H. rewrite H. reflexivity.
  - destruct (trim s) eqn:E; [|reflexivity].
    apply trim_blank_iff in E. congruence.
Qed.

End JsStringFacts.

(** ** Facts about [encodeURIComponent] *)

Module UriFacts.
Import JsString Uri.

Local Open Scope N_scope.

(** Linear arithmetic with division and remainder by constants. *)
Ltac div_lia := zify; Z.to_euclidean_division_equations; lia.

(** Turn the boolean tests of the goal and the context into
    inequalities. *)
Ltac tests :=
  unfold is_unreserved, is_high_surrogate, is_low_surrogate in *;
  repeat match goal with
    | H : _ && _ = true |- _ => apply andb_true_iff in H; destruct H
    | H : _ || _ = true |- _ => apply orb_true_iff in H; destruct H
    | H : _ && _ = false |- _ => apply andb_false_iff in H; destruct H
    | H : _ || _ = false |- _ => apply orb_false_iff in H; destruct H
    | H : (_ <=? _) = true |- _ => apply N.leb_le in H
    | H : (_ <=? _) = false |- _ => apply N.leb_gt in H
    | H : (_ <? _) = true |- _ => apply N.ltb_lt in H
    | H : (_ <? _) = false |- _ => apply N.ltb_ge in H
    | H : (_ =? _) = true |- _ => apply N.eqb_eq in H
    | H : (_ =? _) = false |- _ => apply N.eqb_neq in H
    end.

Lemma two_step_ind (A : Type) (P : list A -> Prop) :
  P [] -> (forall c, P [c]) ->
  (forall c d s, P s -> P (d :: s) -> P (c :: d :: s)) ->
  forall s, P s.
Proof.
  intros H0 H1 H2 s.
  enough (H : P s /\ forall c, P (c :: s)) by apply H.
  induction s as [|d s [IH1 IH2]]; split; auto.
Qed.

Lemma hex_value_digit (d : N) : d < 16 -> hex_value (hex_digit d) = d.
Proof.
  intros H. unfold hex_value, hex_digit.
  destruct (d <? 10) eqn:E.
  - destruct (48 + d <? 58) eqn:E'; tests; lia.
  - destruct (55 + d <? 58) eqn:E'; tests; lia.
Qed.

Lemma hex_digit_unreserved (d : N) :
  d < 16 -> is_unreserved (hex_digit d) = true.
Proof.
  intros H. unfold hex_digit, is_unreserved.
  destruct (d <? 10) eqn:E; tests.
  - replace ((48 <=? 48 + d) && (48 + d <=? 57)) with true.
    + rewrite !orb_true_r. reflexivity.
    + symmetry. apply andb_true_iff. split; apply N.leb_le; lia.
  - replace ((65 <=? 55 + d) && (55 + d <=? 90)) with true.
    + reflexivity.
    + symmetry. apply andb_true_iff. split; apply N.leb_le; lia.
Qed.

Lemma unreserved_small (c : N) : is_unreserved c = true -> c < 127 /\ c <> 37.
Proof. intros H. tests; lia. Qed.

Lemma utf8_octets (cp : N) :
  cp < 1114112 -> Forall (fun b => b < 256) (utf8 cp).
Proof.
  intros H. unfold utf8.
  destruct (cp <? 128) eqn:E1; [|destruct (cp <? 2048) eqn:E2;
    [|destruct (cp <? 65536) eqn:E3]]; tests;
    repeat constructor; div_lia.
Qed.

Lemma octets_percent (b : N) (x : JsString.t) :
  b < 256 -> octets (percent b ++ x) = Octet b :: octets x.
Proof.
  intros H. unfold percent. cbn [app octets].
  rewrite N.eqb_refl, !hex_value_digit by div_lia.
  f_equal. f_equal. div_lia.
Qed.

Lemma octets_flat_map (bs : list N) (x : JsString.t) :
  Forall (fun b => b < 256) bs ->
  octets (flat_map percent bs ++ x) = map Octet bs ++ octets x.
Proof.
  induction 1 as [|b bs Hb _ IH]; [reflexivity|].
  cbn [flat_map map]. rewrite <- !app_assoc, octets_percent by exact Hb.
  rewrite IH. reflexivity.
Qed.

Lemma octets_literal (c : N) (x : JsString.t) :
  is_unreserved c = true -> octets (c :: x) = Literal c :: octets x.
Proof.
  intros [_ H]%unreserved_small. cbn [octets].
  apply N.eqb_neq in H. rewrite H. reflexivity.
Qed.

(** A code point of the basic plane comes back as itself. *)
Lemma units_utf8_bmp (cp : N) (ts : list token) :
  cp < 65536 -> units (map Octet (utf8 cp) ++ ts) = cp :: units ts.
Proof.
  intros H. unfold utf8.
  destruct (cp <? 128) eqn:E1; [|destruct (cp <? 2048) eqn:E2;
    [|rewrite (proj2 (N.ltb_lt _ _) H)]]; cbn [map app units].
  - rewrite E1. reflexivity.
  - tests.
    replace (192 + cp / 64 <? 128) with false
      by (symmetry; apply N.ltb_ge; div_lia).
    replace (192 + cp / 64 <? 224) with true
      by (symmetry; apply N.ltb_lt; div_lia).
    replace ((192 + cp / 64 - 192) * 64 + (128 + cp mod 64 - 128))
      with cp by div_lia.
    unfold units_of_code_point.
    rewrite (proj2 (N.ltb_lt _ _) H). reflexivity.
  - tests.
    replace (224 + cp / 4096 <? 128) with false
      by (symmetry; apply N.ltb_ge; div_lia).
    replace (224 + cp / 4096 <? 224) with false
      by (symmetry; apply N.ltb_ge; div_lia).
    replace (224 + cp / 4096 <? 240) with true
      by (symmetry; apply N.ltb_lt; div_lia).
    replace ((224 + cp / 4096 - 224) * 4096
             + (128 + (cp / 64) mod 64 - 128) * 64
             + (128 + cp mod 64 - 128))
      with cp by div_lia.
    unfold units_of_code_point.
    rewrite (proj2 (N.ltb_lt _ _) H). reflexivity.
Qed.

(** A surrogate pair comes back as the same two code units. *)
Lemma units_utf8_pair (hi lo : N) (ts : list token) :
  is_high_surrogate hi = true -> is_low_surrogate lo = true ->
  units (map Octet (utf8 (pair_to_code_point hi lo)) ++ ts)
  = hi :: lo :: units ts.
Proof.
  intros Hh Hl. tests. unfold pair_to_code_point.
  set (cp := (hi - 55296) * 1024 + (lo - 56320) + 65536).
  assert (Hcp : 65536 <= cp < 1114112) by (unfold cp; lia).
  unfold utf8.
  replace (cp <? 128) with false by (symmetry; apply N.ltb_ge; lia).
  replace (cp <? 2048) with false by (symmetry; apply N.ltb_ge; lia).
  replace (cp <? 65536) with false by (symmetry; apply N.ltb_ge; lia).
  cbn [map app units].
  replace (240 + cp / 262144 <? 128) with false
    by (symmetry; apply N.ltb_ge; div_lia).
  replace (240 + cp / 262144 <? 224) with false
    by (symmetry; apply N.ltb_ge; div_lia).
  replace (240 + cp / 262144 <? 240) with false
    by (symmetry; apply N.ltb_ge; div_lia).
  replace ((240 + cp / 262144 - 240) * 262144
           + (128 + (cp / 4096) mod 64 - 128) * 4096
           + (128 + (cp / 64) mod 64 - 128) * 64
           + (128 + cp mod 64 - 128))
    with cp by div_lia.
  unfold units_of_code_point.
  replace (cp <? 65536) with false by (symmetry; apply N.ltb_ge; lia).
  cbn [app]. f_equal; [|f_equal]; unfold cp; div_lia.
Qed.

Lemma unescape_literal (c : N) (e : JsString.t) :
  is_unreserved c = true -> unescape (c :: e) = c :: unescape e.
Proof.
  intros H. unfold unescape. rewrite octets_literal by exact H. reflexivity.
Qed.

Lemma unescape_escape (cp : N) (e : JsString.t) :
  cp < 65536 -> unescape (escape cp ++ e) = cp :: unescape e.
Proof.
  intros H. unfold unescape, escape.
  rewrite octets_flat_map by (apply utf8_octets; lia).
  apply units_utf8_bmp. exact H.
Qed.

Lemma unescape_escape_pair (hi lo : N) (e : JsString.t) :
  is_high_surrogate hi = true -> is_low_surrogate lo = true ->
  unescape (escape (pair_to_code_point hi lo) ++ e)
  = hi :: lo :: unescape e.
Proof.
  intros Hh Hl. unfold unescape, escape.
  rewrite octets_flat_map.
  - apply units_utf8_pair; assumption.
  - apply utf8_octets. unfold pair_to_code_point. tests. lia.
Qed.

Lemma encode_cons_inv (c : N) (s e : JsString.t) :
  encodeURIComponent (c :: s) = Some e -> first_step c s e.
Proof.
  cbn [encodeURIComponent].
  destruct (is_unreserved c) eqn:Hu.
  - destruct (encodeURIComponent s) as [e'|] eqn:He; [|discriminate].
    intros [= <-]. eapply Kept; eauto.
  - destruct (is_high_surrogate c) eqn:Hh.
    + destruct s as [|lo s']; [discriminate|].
      destruct (is_low_surrogate lo) eqn:Hl; [|discriminate].
      destruct (encodeURIComponent s') as [e'|] eqn:He; [|discriminate].
      intros [= <-]. eapply Pair; eauto.
    + destruct (is_low_surrogate c) eqn:Hl; [discriminate|].
      destruct (encodeURIComponent s) as [e'|] eqn:He; [|discriminate].
      intros [= <-]. eapply Escaped; eauto.
Qed.

Lemma code_units_tail (c : N) (s : JsString.t) :
  code_units (c :: s) -> c < 65536 /\ code_units s.
Proof. intros H. inversion H; subst. split; assumption. Qed.

(** [unescape] undoes [encodeURIComponent]. *)
Lemma unescape_encode (s : JsString.t) :
  code_units s ->
  forall e, encodeURIComponent s = Some e -> unescape e = s.
Proof.
  induction s as [| c | c d s IH1 IH2] using two_step_ind.
  - intros _ e [= <-]. reflexivity.
  - intros [Hc _]%code_units_tail e He.
    destruct (encode_cons_inv _ _ _ He) as
      [e' Hu [= <-] -> | lo s' e' _ _ [=] _ _ | e' _ _ _ [= <-] ->].
    + rewrite unescape_literal by exact Hu. reflexivity.
    + rewrite unescape_escape by exact Hc. reflexivity.
  - intros [Hc Hs]%code_units_tail e He.
    destruct (encode_cons_inv _ _ _ He) as
      [e' Hu He' -> | lo s' e' Hh Hl [= <- <-] He' -> | e' _ _ _ He' ->].
    + rewrite unescape_literal by exact Hu. f_equal. apply IH2; assumption.
    + rewrite unescape_escape_pair by assumption. do 2 f_equal.
      apply IH1; [|assumption].
      apply code_units_tail in Hs. apply Hs.
    + rewrite unescape_escape by exact Hc. f_equal. apply IH2; assumption.
Qed.

Lemma encode_injective (a b e : JsString.t) :
  code_units a -> code_units b ->
  encodeURIComponent a = Some e -> encodeURIComponent b = Some e -> a = b.
Proof.
  intros Ha Hb Ea Eb.
  rewrite <- (unescape_encode a Ha e Ea). apply unescape_encode; assumption.
Qed.

Lemma escape_safe (cp : N) : cp < 1114112 -> Forall safe (escape cp).
Proof.
  intros H. unfold escape. pose proof (utf8_octets cp H) as Hb.
  induction Hb as [|b bs Hb _ IH]; [constructor|].
  cbn [flat_map]. unfold percent at 1. cbn [app].
  apply Forall_cons; [right; reflexivity|].
  apply Forall_cons; [left; apply hex_digit_unreserved; div_lia|].
  apply Forall_cons; [left; apply hex_digit_unreserved; div_lia|].
  exact IH.
Qed.

Lemma encode_safe (s : JsString.t) :
  code_units s ->
  forall e, encodeURIComponent s = Some e -> Forall safe e.
Proof.
  induction s as [| c | c d s IH1 IH2] using two_step_ind.
  - intros _ e [= <-]. constructor.
  - intros [Hc _]%code_units_tail e He.
    destruct (encode_cons_inv _ _ _ He) as
      [e' Hu [= <-] -> | lo s' e' _ _ [=] _ _ | e' _ _ _ [= <-] ->].
    + apply Forall_cons; [left; exact Hu | constructor].
    + rewrite app_nil_r. apply escape_safe. lia.
  - intros [Hc Hs]%code_units_tail e He.
    destruct (encode_cons_inv _ _ _ He) as
      [e' Hu He' -> | lo s' e' Hh Hl [= <- <-] He' -> | e' _ _ _ He' ->].
    + constructor; [left; exact Hu | apply IH2; assumption].
    + apply Forall_app. split.
      * apply escape_safe. unfold pair_to_code_point. tests. lia.
      * apply IH1; [|assumption]. apply code_units_tail in Hs. apply Hs.
    + apply Forall_app. split; [apply escape_safe; lia|].
      apply IH2; assumption.
Qed.

Lemma unreserved_not_surrogate (c : N) :
  is_unreserved c = true ->
  is_high_surrogate c = false /\ is_low_surrogate c = false.
Proof.
  intros [H _]%unreserved_small.
  unfold is_high_surrogate, is_low_surrogate.
  split; apply andb_false_iff; left; apply N.leb_gt; lia.
Qed.

Lemma option_map_none (A B : Type) (f : A -> B) (o : option A) :
  option_map f o = None <-> o = None.
Proof. destruct o; simpl; split; congruence. Qed.

(** [encodeURIComponent] throws exactly on the strings that are not
    well formed. *)
Lemma encode_none_iff (s : JsString.t) :
  encodeURIComponent s = None <-> isWellFormed s = false.
Proof.
  induction s as [| c | c d s IH1 IH2] using two_step_ind.
  - simpl. split; discriminate.
  - cbn [encodeURIComponent isWellFormed].
    destruct (is_unreserved c) eqn:Hu.
    + destruct (unreserved_not_surrogate c Hu) as [-> ->].
      simpl. split; discriminate.
    + destruct (is_high_surrogate c); [tauto|].
      destruct (is_low_surrogate c); simpl; [tauto | split; discriminate].
  - cbn [encodeURIComponent isWellFormed] in *.
    destruct (is_unreserved c) eqn:Hu.
    + destruct (unreserved_not_surrogate c Hu) as [-> ->].
      rewrite option_map_none. cbn [negb andb]. exact IH2.
    + destruct (is_high_surrogate c).
      * destruct (is_low_surrogate d); cbn [andb]; [|tauto].
        rewrite option_map_none. exact IH1.
      * destruct (is_low_surrogate c); cbn [negb andb]; [tauto|].
        rewrite option_map_none. exact IH2.
Qed.

(** A string of unreserved characters is its own encoding. *)
Lemma encode_unreserved (s : JsString.t) :
  forallb is_unreserved s = true -> encodeURIComponent s = Some s.
Proof.
  induction s as [|c s IH]; [reflexivity|].
  cbn [forallb encodeURIComponent].
  intros [-> Hs]%andb_true_iff. rewrite (IH Hs). reflexivity.
Qed.

End UriFacts.

(** ** Facts about the coordinator *)

Section CoordinatorFacts.

Variables Result Source Avail : Type.
Variable enabled : Source -> bool.

Implicit Types (r cur prev : Render Result) (st : Settings Source)
  (s : Session) (tr : trace Result Source Avail) (f : Fiber Result)
  (env : Env Result Source Avail) (q : JsString.t).

Lemma length_pos_iff (A : Type) (l : list A) :
  (0 <? length l) = true <-> l <> [].
Proof. destruct l; cbn; split; congruence. Qed.

Lemma length_zero_iff (A : Type) (l : list A) :
  (length l =? 0) = true <-> l = [].
Proof. destruct l; simpl; split; congruence. Qed.

Lemma commit_app s tr tr' :
  commit s (tr ++ tr') = commit (commit s tr) tr'.
Proof. apply fold_left_app. Qed.

Lemma searches_app tr tr' :
  searches (tr ++ tr') = searches tr ++ searches tr'.
Proof. apply filter_app. Qed.

Lemma resorts_app tr tr' :
  resorts (tr ++ tr') = resorts tr ++ resorts tr'.
Proof. apply filter_app. Qed.

Lemma executor_commands_app tr tr' :
  executor_commands (tr ++ tr')
  = executor_commands tr ++ executor_commands tr'.
Proof. apply filter_app. Qed.

(** The sort synchronisation only ever queues [setCurrentSortBy]. *)
Lemma sortSync_cases r st :
  (sortSync r st : trace Result Source Avail) = []
  \/ (sortSync r st : trace Result Source Avail)
     = [SetCurrentSortBy (sortBy st)].
Proof. unfold sortSync. destruct (negb _); auto. Qed.

Lemma sortSync_quiet r st :
  executor_commands (sortSync r st : trace Result Source Avail) = []
  /\ searches (sortSync r st : trace Result Source Avail) = []
  /\ resorts (sortSync r st : trace Result Source Avail) = [].
Proof. destruct (sortSync_cases r st) as [-> | ->]; auto. Qed.

Lemma sortSync_commit r st s :
  query (commit s (sortSync r st : trace Result Source Avail)) = query s
  /\ hasSearched (commit s (sortSync r st : trace Result Source Avail))
     = hasSearched s.
Proof. destruct (sortSync_cases r st) as [-> | ->]; auto. Qed.

(** *** Dependency arrays *)

Lemma same_settingsDeps_iff r r' :
  same_settingsDeps r r' = true <-> settingsDeps r = settingsDeps r'.
Proof.
  unfold same_settingsDeps, settingsDeps.
  rewrite !andb_true_iff, !JsStringFacts.eqb_eq, !Nat.eqb_eq,
    !Bool.eqb_true_iff.
  split.
  - intros [[[[[-> ->] ->] ->] ->] ->]. reflexivity.
  - intros [= -> -> -> -> -> ->]. tauto.
Qed.

(** [updateSettings] reads nothing of its render but what the
    dependency array of its effect lists. *)
Lemma updateSettings_deps r r' st :
  settingsDeps r = settingsDeps r' ->
  updateSettings enabled r st
  = (updateSettings enabled r' st : trace Result Source Avail).
Proof.
  unfold settingsDeps, updateSettings, sortSync.
  intros [= -> -> -> -> _ ->]. reflexivity.
Qed.

(** *** What holds of a mounted component *)

Lemma mountRestore_sets_ref (hs : JsString.t -> trace Result Source Avail)
    (b : bool) (loc : option JsString.t)
    (c : option (CachedSearch Result Avail)) :
  fst (mountRestore hs b loc c) = true.
Proof. unfold mountRestore. destruct b; reflexivity. Qed.

Lemma mountRestore_guard (hs : JsString.t -> trace Result Source Avail)
    (loc : option JsString.t) (c : option (CachedSearch Result Avail)) :
  mountRestore hs true loc c = (true, []).
Proof. reflexivity. Qed.

Lemma mount_mounted p i env : mounted (fst (mount enabled p i env)).
Proof.
  unfold mount, commitEffects, runs; simpl. split.
  - reflexivity.
  - exists (firstRender p i), (firstRender p i). auto.
Qed.

Lemma commit_mounted f cur env :
  mounted f -> mounted (fst (commitEffects enabled f cur env)).
Proof.
  intros [Href (last & sub & Hl & Hs & Hd)].
  unfold commitEffects, runs; rewrite Hl; simpl. split.
  - destruct (negb (same_mountDeps last cur)); simpl; auto.
    apply mountRestore_sets_ref.
  - exists cur. destruct (same_settingsDeps last cur) eqn:E; simpl.
    + exists sub. apply same_settingsDeps_iff in E.
      repeat split; congruence.
    + exists cur. auto.
Qed.

Lemma reachable_mounted f : reachable Avail enabled f -> mounted f.
Proof.
  induction 1; [apply mount_mounted | apply commit_mounted; assumption].
Qed.

(** A notification runs [updateSettings] on the values of the render
    committed last, although the subscribed closure may be older. *)
Lemma notify_current f cur st :
  reachable Avail enabled f -> lastRender f = Some cur ->
  notify Avail enabled f st = updateSettings enabled cur st.
Proof.
  intros [_ (last & sub & Hl & Hs & Hd)]%reachable_mounted Hc.
  unfold notify. rewrite Hs. apply updateSettings_deps. congruence.
Qed.

(** After the first commit the mount-restore effect contributes
    nothing, whether React re-runs it or not. *)
Lemma mountRestore_runs_once f cur env :
  reachable Avail enabled f ->
  snd (commitEffects enabled f cur env)
  = (if runs f (@same_resortDeps Result) cur
     then resortEffect cur else [])
    ++ (if runs f (@same_settingsDeps Result) cur
        then updateSettings enabled cur (store env) else []).
Proof.
  intros [Href _]%reachable_mounted.
  unfold commitEffects; simpl. rewrite Href.
  destruct (runs f _ cur), (runs f _ cur), (runs f _ cur); simpl;
    rewrite ?app_nil_r; reflexivity.
Qed.

(** The first commit: the re-sort effect and the retry of
    [updateSettings] are silent on the initial state, so the trace is
    the sort synchronisation followed by the mount-restore effect. *)
Lemma mount_trace p i env :
  snd (mount enabled p i env)
  = sortSync (firstRender p i) (store env)
    ++ snd (mountRestore
              (handleSearch enabled (firstRender p i) (store env))
              false (location_q env) (cache env)).
Proof.
  unfold mount, commitEffects, runs; simpl.
  unfold updateSettings; simpl. rewrite app_nil_r. reflexivity.
Qed.

(** *** Handler lemmas shared by the theorems below *)

Lemma cache_hit_false_iff q (cached : option (CachedSearch Result Avail)) :
  cache_hit q cached = false
  <-> cached = None
      \/ exists c, cached = Some c
                   /\ (cached_query c <> q \/ cached_results c = []).
Proof.
  unfold cache_hit. destruct cached as [c|]; [|split; auto].
  rewrite andb_false_iff, JsStringFacts.eqb_neq. split.
  - intros [H | H]; right; exists c; split; auto.
    right. destruct (cached_results c); [reflexivity | discriminate].
  - intros [H | (c' & [= <-] & [H | H])]; [discriminate | auto |].
    right. rewrite H. reflexivity.
Qed.

Lemma mountRestore_miss (hs : JsString.t -> trace Result Source Avail) q
    (cached : option (CachedSearch Result Avail)) :
  q <> [] -> cache_hit q cached = false ->
  mountRestore hs false (Some q) cached = (true, SetQuery q :: hs q).
Proof.
  intros Hq%JsStringFacts.truthy_iff Hmiss. unfold mountRestore.
  rewrite Hq. destruct cached as [c|]; [|reflexivity].
  simpl in Hmiss. rewrite Hmiss. reflexivity.
Qed.

Lemma mountRestore_hit (hs : JsString.t -> trace Result Source Avail) q
    (c : CachedSearch Result Avail) :
  q <> [] -> cached_query c = q -> cached_results c <> [] ->
  mountRestore hs false (Some q) (Some c)
  = (true, [SetQuery q; SetHasSearched true;
            LoadCachedResults (cached_results c)
              (cached_availableSources c)]).
Proof.
  intros Hq%JsStringFacts.truthy_iff Hc Hr%length_pos_iff.
  unfold mountRestore. rewrite Hq, Hc, JsStringFacts.eqb_refl, Hr.
  reflexivity.
Qed.

Lemma handleSearch_blank r st q :
  JsString.whitespace_only q = true ->
  handleSearch enabled r st q = ([] : trace Result Source Avail).
Proof.
  intros H. unfold handleSearch.
  rewrite JsStringFacts.truthy_trim, H. reflexivity.
Qed.

Lemma handleSearch_nonblank r st q :
  JsString.whitespace_only q = false ->
  handleSearch enabled r st q
  = (SetQuery q :: SetHasSearched true ::
     match filter enabled (sources st) with
     | [] => []
     | _ :: _ =>
         [PerformSearch q (filter enabled (sources st))
            (currentSortBy (session r))]
     end : trace Result Source Avail).
Proof.
  intros H. unfold handleSearch.
  rewrite JsStringFacts.truthy_trim, H. simpl.
  destruct (filter enabled (sources st)); reflexivity.
Qed.

Lemma updateSettings_retry r st :
  query (session r) <> [] ->
  filter enabled (sources st) <> [] ->
  hasSearched (session r) = false \/ results (progress r) = [] ->
  loading (progress r) = false ->
  updateSettings enabled r st
  = (sortSync r st
     ++ [PerformSearch (query (session r)) (filter enabled (sources st))
           (sortBy st);
         SetHasSearched true] : trace Result Source Avail).
Proof.
  intros Hq%JsStringFacts.truthy_iff Hs%length_pos_iff Hr Hl.
  unfold updateSettings. rewrite Hq, Hs, Hl.
  destruct Hr as [-> | ->]; simpl; rewrite ?orb_true_r; reflexivity.
Qed.

Lemma updateSettings_quiet r st :
  loading (progress r) = true
  \/ (hasSearched (session r) = true /\ results (progress r) <> []) ->
  updateSettings enabled r st
  = (sortSync r st : trace Result Source Avail).
Proof.
  intros H. unfold updateSettings.
  rewrite <- (app_nil_r (sortSync r st)) at 2. f_equal.
  destruct H as [-> | [-> Hr]].
  - simpl. rewrite andb_false_r. reflexivity.
  - destruct (results (progress r)); [congruence|].
    simpl. rewrite andb_false_r. reflexivity.
Qed.

(** *** Settings-change reconciliation *)

(** C1. Whenever [updateSettings] runs (as the subscribed callback of a
    settings-store notification, or eagerly when its effect runs at a
    commit) with a non-empty query, a non-empty freshly read list of
    enabled sources, [hasSearched] false or no result, and [loading]
    false, it calls [performSearch] with the current query, the freshly
    read enabled sources and the freshly read sort preference, and
    then sets [hasSearched] to true. *)
Theorem updateSettings_retries_on_late_sources r st :
  query (session r) <> [] ->
  filter enabled (sources st) <> [] ->
  hasSearched (session r) = false \/ results (progress r) = [] ->
  loading (progress r) = false ->
  let retry : trace Result Source Avail :=
    sortSync r st
    ++ [PerformSearch (query (session r)) (filter enabled (sources st))
          (sortBy st);
        SetHasSearched true] in
  updateSettings enabled r st = retry
  /\ (forall f, reachable Avail enabled f -> lastRender f = Some r ->
                notify Avail enabled f st = retry)
  /\ (forall f env, store env = st ->
        runs f (@same_settingsDeps Result) r = true ->
        exists before after,
          snd (commitEffects enabled f r env) = before ++ retry ++ after)
  /\ searches retry
     = [PerformSearch (query (session r)) (filter enabled (sources st))
          (sortBy st)]
  /\ hasSearched (commit (session r) retry) = true.
Proof.
  intros Hq Hs Hr Hl retry.
  pose proof (updateSettings_retry r st Hq Hs Hr Hl) as Hu.
  repeat split.
  - exact Hu.
  - intros f Hf Hlast. rewrite (notify_current f r st Hf Hlast). exact Hu.
  - intros f env <- Hruns. unfold commitEffects; simpl.
    rewrite Hruns, Hu. eauto.
  - unfold retry. rewrite searches_app.
    destruct (sortSync_quiet r st) as (_ & -> & _). reflexivity.
  - unfold retry. rewrite commit_app. reflexivity.
Qed.

(** C2. [updateSettings] issues no [performSearch] while [loading] is
    true, nor on a settled state ([hasSearched] true and at least one
    result); this holds of the handler and of every notification
    delivered to a mounted component in such a state.  The run leaves
    [query] and [hasSearched] as they were, so a second run on the same
    state is as silent as the first. *)
Theorem updateSettings_silent_when_loading_or_settled r st :
  loading (progress r) = true
  \/ (hasSearched (session r) = true /\ results (progress r) <> []) ->
  let tr : trace Result Source Avail := updateSettings enabled r st in
  searches tr = []
  /\ (forall f, reachable Avail enabled f -> lastRender f = Some r ->
                searches (notify Avail enabled f st) = [])
  /\ query (commit (session r) tr) = query (session r)
  /\ hasSearched (commit (session r) tr) = hasSearched (session r).
Proof.
  intros H tr.
  assert (Htr : tr = sortSync r st) by apply (updateSettings_quiet r st H).
  destruct (sortSync_quiet r st) as (_ & Hs & _).
  destruct (sortSync_commit r st (session r)) as (Hq & Hh).
  repeat split.
  - rewrite Htr. exact Hs.
  - intros f Hf Hlast. rewrite (notify_current f r st Hf Hlast).
    fold tr. rewrite Htr. exact Hs.
  - rewrite Htr. exact Hq.
  - rewrite Htr. exact Hh.
Qed.

(** *** Mount *)

(** C3. On mount, when the location carries a query (its [q] parameter
    is a non-empty string) and the cache holds a record with that query
    and at least one result, the coordinator sets [hasSearched] to
    true, calls [loadCachedResults] with the cached results and
    [availableSources], and calls [performSearch] not at all. *)
Theorem mount_restores_from_cache p i env q c :
  location_q env = Some q -> q <> [] ->
  cache env = Some c -> cached_query c = q -> cached_results c <> [] ->
  let tr := snd (mount enabled p i env) in
  tr = sortSync (firstRender p i) (store env)
       ++ [SetQuery q; SetHasSearched true;
           LoadCachedResults (cached_results c)
             (cached_availableSources c)]
  /\ hasSearched (commit initialSession tr) = true
  /\ query (commit initialSession tr) = q
  /\ executor_commands tr
     = [LoadCachedResults (cached_results c) (cached_availableSources c)]
  /\ searches tr = [].
Proof.
  intros Hloc Hq Hcache Hc Hr tr.
  assert (Htr : tr = sortSync (firstRender p i) (store env)
                     ++ [SetQuery q; SetHasSearched true;
                         LoadCachedResults (cached_results c)
                           (cached_availableSources c)]).
  { unfold tr. rewrite mount_trace, Hloc, Hcache.
    rewrite (mountRestore_hit _ q c Hq Hc Hr). reflexivity. }
  destruct (sortSync_quiet (firstRender p i) (store env))
    as (He & Hs & _).
  rewrite Htr, commit_app, executor_commands_app, searches_app, He, Hs.
  repeat split; reflexivity.
Qed.

(** C4. On mount, when the location carries a query and the cache
    misses (no record, a record of another query, or a record without
    results), the mount-restore effect calls the search action with the
    location's query exactly once: whatever the action [hs] is, the
    effect's calls are [setQuery] followed by one run of [hs] on that
    query; in the hook the action is [handleSearch], and no later
    commit runs it again from this effect. *)
Theorem mount_cache_miss_searches_once
    (hs : JsString.t -> trace Result Source Avail) p i env q :
  location_q env = Some q -> q <> [] ->
  (cache env = None
   \/ exists c, cache env = Some c
                /\ (cached_query c <> q \/ cached_results c = [])) ->
  mountRestore hs false (location_q env) (cache env)
  = (true, SetQuery q :: hs q)
  /\ snd (mount enabled p i env)
     = sortSync (firstRender p i) (store env)
       ++ SetQuery q
          :: handleSearch enabled (firstRender p i) (store env) q
  /\ hasLoadedCache (fst (mount enabled p i env)) = true
  /\ (forall loc cached, mountRestore hs true loc cached = (true, []))
  /\ (forall f cur env', reachable Avail enabled f ->
        snd (commitEffects enabled f cur env')
        = (if runs f (@same_resortDeps Result) cur
           then resortEffect cur else [])
          ++ (if runs f (@same_settingsDeps Result) cur
              then updateSettings enabled cur (store env') else [])).
Proof.
  intros Hloc Hq Hmiss%cache_hit_false_iff. repeat split.
  - rewrite Hloc. apply mountRestore_miss; assumption.
  - rewrite mount_trace, Hloc, (mountRestore_miss _ q _ Hq Hmiss).
    reflexivity.
  - intros f cur env' Hf. apply mountRestore_runs_once. exact Hf.
Qed.

(** *** The search action *)

(** C5. On a blank or whitespace-only input [handleSearch] makes no
    call at all: the session state is unchanged and the Executor
    receives no command. *)
Theorem handleSearch_ignores_blank r st q :
  JsString.whitespace_only q = true ->
  handleSearch enabled r st q = ([] : trace Result Source Avail)
  /\ commit (Source:=Source) (Avail:=Avail) (session r)
       (handleSearch enabled r st q) = session r
  /\ executor_commands
       (handleSearch enabled r st q : trace Result Source Avail) = [].
Proof.
  intros H. rewrite (handleSearch_blank r st q H).
  repeat split; reflexivity.
Qed.

(** C6. On an input [q] that is not blank, [handleSearch] sets [query]
    to [q] and [hasSearched] to true; with no enabled source in the
    settings store it sends the Executor nothing, otherwise its one
    Executor command is [performSearch] with [q], the enabled sources
    and the session's sort preference. *)
Theorem handleSearch_searches_nonblank r st q :
  JsString.whitespace_only q = false ->
  let tr : trace Result Source Avail := handleSearch enabled r st q in
  query (commit (session r) tr) = q
  /\ hasSearched (commit (session r) tr) = true
  /\ currentSortBy (commit (session r) tr) = currentSortBy (session r)
  /\ (filter enabled (sources st) = [] -> executor_commands tr = [])
  /\ (filter enabled (sources st) <> [] ->
      executor_commands tr
      = [PerformSearch q (filter enabled (sources st))
           (currentSortBy (session r))]).
Proof.
  intros H tr. unfold tr. rewrite (handleSearch_nonblank r st q H).
  destruct (filter enabled (sources st)) as [|x l];
    repeat split; try reflexivity; congruence.
Qed.

(** *** Sorting *)

(** C7. At a commit of a mounted component where the sort preference
    differs from the one of the previous render, while [hasSearched]
    is true and there is at least one result, the effects call
    [applySorting] exactly once, with the new sort key, and never
    [performSearch]. *)
Theorem sort_change_resorts_once f prev cur env :
  reachable Avail enabled f -> lastRender f = Some prev ->
  currentSortBy (session prev) <> currentSortBy (session cur) ->
  hasSearched (session cur) = true ->
  results (progress cur) <> [] ->
  let tr := snd (commitEffects enabled f cur env) in
  resorts tr = [ApplySorting (currentSortBy (session cur))]
  /\ searches tr = [].
Proof.
  intros Hf Hlast Hsort%JsStringFacts.eqb_neq Hh Hr tr.
  assert (Htr : tr = ApplySorting (currentSortBy (session cur))
                     :: sortSync cur (store env)).
  { unfold tr. rewrite (mountRestore_runs_once f cur env Hf).
    unfold runs, same_resortDeps, same_settingsDeps, resortDeps,
      settingsDeps.
    rewrite Hlast, Hsort. simpl. rewrite !andb_false_r. simpl.
    rewrite (updateSettings_quiet cur (store env)) by auto.
    unfold resortEffect. rewrite Hh.
    apply length_pos_iff in Hr. rewrite Hr. reflexivity. }
  destruct (sortSync_quiet cur (store env)) as (_ & Hs & Ha).
  rewrite Htr. unfold resorts, searches in *. simpl.
  rewrite Hs, Ha. split; reflexivity.
Qed.

(** *** Reset *)

(** C8. From every state [handleReset] sets [query] to the empty
    string and [hasSearched] to false, sends the Executor
    [resetSearch] and nothing else, and replaces the location by the
    bare ['/']; it is a total function with one outcome. *)
Theorem handleReset_resets s :
  let tr : trace Result Source Avail := handleReset in
  query (commit s tr) = []
  /\ hasSearched (commit s tr) = false
  /\ executor_commands tr = [ResetSearch]
  /\ tr = [SetHasSearched false; SetQuery []; ResetSearch;
           RouterReplace (JsString.lit "/")].
Proof. repeat split. Qed.

(** C9, amended. [handleReset] returns [query] and [hasSearched] to
    their initial values and leaves the sort preference as it was; the
    session after it is the initial one exactly when the sort preference
    was ['default'] already. *)
Theorem handleReset_keeps_sort s :
  let s' := commit (Result:=Result) (Source:=Source) (Avail:=Avail) s
              handleReset in
  s' = {| query := query initialSession;
          hasSearched := hasSearched initialSession;
          currentSortBy := currentSortBy s |}
  /\ (s' = initialSession
      <-> currentSortBy s = currentSortBy initialSession).
Proof.
  split; [reflexivity|].
  split.
  - intros H. apply (f_equal currentSortBy) in H. exact H.
  - intros H. unfold commit, handleReset; simpl. rewrite H. reflexivity.
Qed.

(** *** Mount with a blank query *)

(** C10, amended. On mount with a whitespace-only [q] parameter and no
    cached record of that very query with results, the session's query
    is that string, [hasSearched] stays false and the Executor
    receives no command. *)
Theorem mount_blank_query_is_inert p i env q :
  location_q env = Some q ->
  JsString.whitespace_only q = true ->
  cache_hit q (cache env) = false ->
  let tr := snd (mount enabled p i env) in
  query (commit initialSession tr) = q
  /\ hasSearched (commit initialSession tr) = false
  /\ executor_commands tr = [].
Proof.
  intros Hloc Hws Hmiss tr.
  assert (Htr : tr = sortSync (firstRender p i) (store env)
                     ++ match q with [] => [] | _ => [SetQuery q] end).
  { unfold tr. rewrite mount_trace, Hloc.
    destruct q as [|c q']; [reflexivity|].
    rewrite (mountRestore_miss _ (c :: q') _) by (auto; discriminate).
    simpl. rewrite (handleSearch_blank _ _ _ Hws). reflexivity. }
  destruct (sortSync_quiet (firstRender p i) (store env)) as (He & _).
  destruct (sortSync_commit (firstRender p i) (store env) initialSession)
    as (Hcq & Hch).
  rewrite Htr, commit_app, executor_commands_app, He.
  destruct q; simpl; rewrite ?Hcq, ?Hch; repeat split; reflexivity.
Qed.

End CoordinatorFacts.

(** ** The shareable location (line 32) *)

Section Location.

Variables Result Source Avail : Type.

Implicit Types (q a b url : JsString.t) (u : command Result Source Avail).

Lemma reflectQuery_inv q u :
  reflectQuery q = Some u ->
  exists e, Uri.encodeURIComponent q = Some e
            /\ u = RouterReplace (JsString.lit "/?q=" ++ e).
Proof.
  unfold reflectQuery.
  destruct (Uri.encodeURIComponent q) as [e|]; [|discriminate].
  intros [= <-]. eauto.
Qed.

(** X1. Two queries that are written to the same location are the same
    query: the location determines the query. *)
Theorem reflectQuery_injective a b u :
  Uri.code_units a -> Uri.code_units b ->
  reflectQuery a = Some u -> reflectQuery b = Some u -> a = b.
Proof.
  intros Ha Hb (ea & Ea & ->)%reflectQuery_inv
    (eb & Eb & [= E])%reflectQuery_inv.
  apply (UriFacts.encode_injective a b ea Ha Hb Ea).
  rewrite Eb. congruence.
Qed.

(** X2. The location written for a query is [/?q=] followed by unreserved
    characters and ['%'] only; in particular the query adds no space and
    none of [# & + / = ?]. *)
Theorem reflectQuery_location_is_safe q u :
  Uri.code_units q -> reflectQuery q = Some u ->
  exists e, u = RouterReplace (JsString.lit "/?q=" ++ e)
            /\ Forall Uri.safe e
            /\ forall c, In c (JsString.lit " #&+/=?") -> ~ In c e.
Proof.
  intros Hq (e & He & ->)%reflectQuery_inv. exists e.
  pose proof (UriFacts.encode_safe q Hq e He) as Hs.
  repeat split; [exact Hs|].
  intros c Hc Hin. rewrite Forall_forall in Hs.
  destruct (Hs c Hin) as [Hu | ->].
  - simpl in Hc.
    repeat (destruct Hc as [<- | Hc]; [discriminate Hu|]). exact Hc.
  - simpl in Hc.
    repeat (destruct Hc as [Hc | Hc]; [discriminate Hc|]). exact Hc.
Qed.

(** X3. The callback throws, and the location is not replaced, exactly when
    the query has an unpaired surrogate. *)
Theorem reflectQuery_throws_iff_ill_formed q :
  @reflectQuery Result Source Avail q = None
  <-> Uri.isWellFormed q = false.
Proof.
  unfold reflectQuery.
  rewrite UriFacts.option_map_none. apply UriFacts.encode_none_iff.
Qed.

(** X4. A query of letters, digits and [- _ . ! ~ * ' ( )] appears in the
    location as it is. *)
Theorem reflectQuery_plain_query q :
  forallb Uri.is_unreserved q = true ->
  @reflectQuery Result Source Avail q
  = Some (RouterReplace (JsString.lit "/?q=" ++ q)).
Proof.
  intros H. unfold reflectQuery.
  rewrite (UriFacts.encode_unreserved q H). reflexivity.
Qed.

End Location.

(** ** What the hook does across events *)

Section CoordinatorInvariants.

Variables Result Source Avail : Type.
Variable enabled : Source -> bool.

Implicit Types (r cur prev : Render Result) (st : Settings Source)
  (s : Session) (tr : trace Result Source Avail) (f : Fiber Result)
  (env : Env Result Source Avail) (q : JsString.t).

(** *** The shapes of the handlers' traces *)

Lemma updateSettings_shape r st :
  exists tl : trace Result Source Avail,
    updateSettings enabled r st = sortSync r st ++ tl
    /\ retry_shape enabled r st tl.
Proof.
  unfold updateSettings.
  destruct (JsString.truthy (query (session r))) eqn:Hq;
    [|exists []; split; [reflexivity | constructor]].
  destruct (0 <? length (filter enabled (sources st))) eqn:Hs;
    [|exists []; split; [reflexivity | constructor]].
  destruct (loading (progress r)) eqn:Hl;
    [rewrite andb_false_r; exists []; split; [reflexivity | constructor]|].
  destruct (negb (hasSearched (session r))
            || (length (results (progress r)) =? 0)) eqn:Hg;
    [|exists []; split; [reflexivity | constructor]].
  eexists; split; [reflexivity|].
  apply Retry.
  - apply JsStringFacts.truthy_iff, Hq.
  - apply length_pos_iff, Hs.
  - apply orb_true_iff in Hg. destruct Hg as [Hg | Hg].
    + left. destruct (hasSearched (session r)); [discriminate | reflexivity].
    + right. apply length_zero_iff, Hg.
  - exact Hl.
Qed.

Lemma handleSearch_shape r st q :
  search_shape enabled r st q
    (handleSearch enabled r st q : trace Result Source Avail).
Proof.
  destruct (JsString.whitespace_only q) eqn:Hq.
  - rewrite (handleSearch_blank Result Source Avail enabled r st q Hq).
    apply Ignored, Hq.
  - rewrite (handleSearch_nonblank Result Source Avail enabled r st q Hq).
    destruct (filter enabled (sources st)) eqn:Hs.
    + apply Deferred; assumption.
    + rewrite <- Hs. apply Searched; [assumption|].
      rewrite Hs. discriminate.
Qed.

Lemma mountRestore_shape (hs : JsString.t -> trace Result Source Avail)
    (loc : option JsString.t) (cached : option (CachedSearch Result Avail)) :
  restore_shape hs loc cached (snd (mountRestore hs false loc cached)).
Proof.
  destruct loc as [[|c q]|].
  - apply NoQuery. auto.
  - destruct (cache_hit (c :: q) cached) eqn:Hhit.
    + destruct cached as [rec|]; [|discriminate].
      cbn [cache_hit] in Hhit. apply andb_true_iff in Hhit.
      destruct Hhit as [Hq%JsStringFacts.eqb_eq Hr%length_pos_iff].
      rewrite (mountRestore_hit Result Source Avail hs (c :: q) rec)
        by (assumption || discriminate).
      eapply Restored; eauto. discriminate.
    + rewrite (mountRestore_miss Result Source Avail hs (c :: q) cached)
        by (assumption || discriminate).
      apply Missed; [reflexivity | discriminate | assumption].
  - apply NoQuery. auto.
Qed.

Lemma resortEffect_cases r :
  (resortEffect r : trace Result Source Avail) = []
  \/ (hasSearched (session r) = true /\ results (progress r) <> []
      /\ (resortEffect r : trace Result Source Avail)
         = [ApplySorting (currentSortBy (session r))]).
Proof.
  unfold resortEffect.
  destruct (hasSearched (session r)); [|auto].
  destruct (0 <? length (results (progress r))) eqn:E; [|auto].
  right. apply length_pos_iff in E. auto.
Qed.

Lemma same_resortDeps_iff r r' :
  same_resortDeps r r' = true <-> resortDeps r = resortDeps r'.
Proof.
  unfold same_resortDeps, resortDeps.
  rewrite !andb_true_iff, !JsStringFacts.eqb_eq, !Nat.eqb_eq,
    !Bool.eqb_true_iff.
  split.
  - intros [[[-> ->] ->] ->]. reflexivity.
  - intros [= -> -> -> ->]. tauto.
Qed.

(** The trace of a commit after the first: the re-sort effect and the
    settings effect, each only if one of its dependencies changed. *)
Lemma later_commit_trace f prev cur env :
  reachable Avail enabled f -> lastRender f = Some prev ->
  snd (commitEffects enabled f cur env)
  = (if same_resortDeps prev cur then [] else resortEffect cur)
    ++ (if same_settingsDeps prev cur then []
        else updateSettings enabled cur (store env)).
Proof.
  intros Hf Hlast.
  rewrite (mountRestore_runs_once Result Source Avail enabled f cur env Hf).
  unfold runs. rewrite Hlast.
  destruct (same_resortDeps prev cur), (same_settingsDeps prev cur);
    reflexivity.
Qed.

Lemma reachable_has_last f :
  reachable Avail enabled f -> exists prev, lastRender f = Some prev.
Proof.
  intros [_ (last & _ & H & _)]%reachable_mounted. eauto.
Qed.

(** Every batch, taken apart into the branches the source can take. *)
Ltac batch_cases H :=
  let Hf := fresh "Hf" in
  destruct H as [p i env | f cur env Hf | f st Hf | r st q | st];
  [ rewrite (mount_trace Result Source Avail enabled);
    destruct (mountRestore_shape
                (handleSearch enabled (firstRender p i) (store env))
                (location_q env) (cache env))
      as [? | ? ? ? ? ? ? ? | ? ? ? ?];
    [ | | destruct (handleSearch_shape (firstRender p i) (store env) q) ];
    destruct (sortSync_cases Result Source Avail (firstRender p i)
                (store env)) as [-> | ->]
  | let prev := fresh "prev" in
    let Hlast := fresh "Hlast" in
    destruct (reachable_has_last f Hf) as [prev Hlast];
    rewrite (later_commit_trace f prev cur env Hf Hlast);
    destruct (same_resortDeps prev cur) eqn:?;
    destruct (same_settingsDeps prev cur) eqn:?;
    try (destruct (resortEffect_cases cur) as [-> | (? & ? & ->)]);
    try (destruct (updateSettings_shape cur (store env))
           as (? & -> & [ | ? ? ? ? ]);
         destruct (sortSync_cases Result Source Avail cur (store env))
           as [-> | ->])
  | let sub := fresh "sub" in
    let Hsub := fresh "Hsub" in
    destruct (reachable_mounted Result Source Avail enabled f Hf)
      as [_ (? & sub & _ & Hsub & _)];
    unfold notify; rewrite Hsub;
    destruct (updateSettings_shape sub st) as (? & -> & [ | ? ? ? ? ]);
    destruct (sortSync_cases Result Source Avail sub st) as [-> | ->]
  | destruct (handleSearch_shape r st q)
  | ].

Lemma nonblank_nonempty q : JsString.whitespace_only q = false -> q <> [].
Proof. intros H ->. discriminate H. Qed.

(** X5. Whatever the event, a search the hook starts carries a non-empty
    query and the store's enabled sources, of which there is at least
    one. *)
Theorem searches_carry_enabled_sources st tr :
  emitted enabled st tr ->
  Forall (fun c =>
            match c with
            | PerformSearch q srcs _ =>
                q <> [] /\ srcs <> []
                /\ srcs = filter enabled (sources st)
            | _ => True
            end) tr.
Proof.
  intros H. batch_cases H; cbn [app];
    repeat (apply Forall_cons || apply Forall_nil);
    auto using nonblank_nonempty.
Qed.

(** X6. A batch that starts a search leaves [hasSearched] true, whatever
    it was. *)
Theorem search_sets_hasSearched st tr s :
  emitted enabled st tr -> searches tr <> [] ->
  hasSearched (commit s tr) = true.
Proof.
  intros H. batch_cases H; cbn; intros Hs; reflexivity || congruence.
Qed.

(** X7. One batch sends the Executor at most one command: a commit never
    both re-sorts and searches, and mount either hydrates or searches. *)
Theorem batch_sends_at_most_one_command st tr :
  emitted enabled st tr -> length (executor_commands tr) <= 1.
Proof.
  intros H. batch_cases H; cbn; try lia; intuition congruence.
Qed.


(** *** The sort preference *)

(** X9. After [updateSettings] has run, and after the first commit, the
    session's sort preference is the store's. *)
Theorem session_adopts_store_sort r st p i env :
  currentSortBy
    (commit (session r)
       (updateSettings enabled r st : trace Result Source Avail))
  = sortBy st
  /\ currentSortBy (commit initialSession (snd (mount enabled p i env)))
     = sortBy (store env).
Proof.
  assert (Hsync : forall r' st' (tl : trace Result Source Avail),
             (forall s', currentSortBy (commit s' tl) = currentSortBy s') ->
             currentSortBy (commit (session r') (sortSync r' st' ++ tl))
             = sortBy st').
  { intros r' st' tl Htl. rewrite commit_app, Htl. unfold sortSync.
    destruct (JsString.eqb (sortBy st') (currentSortBy (session r'))) eqn:E;
      [|reflexivity].
    apply JsStringFacts.eqb_eq in E. symmetry. exact E. }
  split.
  - destruct (updateSettings_shape r st) as (tl & -> & Htl).
    apply Hsync. intros s'. destruct Htl; reflexivity.
  - rewrite (mount_trace Result Source Avail enabled).
    change initialSession with (session (firstRender p i)).
    apply Hsync. intros s'.
    destruct (mountRestore_shape
                (handleSearch enabled (firstRender p i) (store env))
                (location_q env) (cache env))
      as [? | ? ? ? ? ? ? ? | q ? ? ?]; try reflexivity.
    destruct (handleSearch_shape (firstRender p i) (store env) q);
      reflexivity.
Qed.

(** *** When the effects run *)

(** X10. At a commit where a dependency of the re-sort effect changed (the
    sort preference, [hasSearched] or the number of results), with
    [hasSearched] true and a result, [applySorting] is called once with
    the session's sort key, and nothing is searched. *)
Theorem resort_on_dependency_change f prev cur env :
  reachable Avail enabled f -> lastRender f = Some prev ->
  resortDeps prev <> resortDeps cur ->
  hasSearched (session cur) = true ->
  results (progress cur) <> [] ->
  resorts (snd (commitEffects enabled f cur env))
  = [ApplySorting (currentSortBy (session cur))]
  /\ searches (snd (commitEffects enabled f cur env)) = [].
Proof.
  intros Hf Hlast Hdeps Hh Hr.
  rewrite (later_commit_trace f prev cur env Hf Hlast).
  destruct (same_resortDeps prev cur) eqn:E;
    [apply same_resortDeps_iff in E; contradiction|].
  assert (Hre : (resortEffect cur : trace Result Source Avail)
                = [ApplySorting (currentSortBy (session cur))]).
  { unfold resortEffect. rewrite Hh.
    apply length_pos_iff in Hr. rewrite Hr. reflexivity. }
  rewrite Hre, resorts_app, searches_app.
  destruct (same_settingsDeps prev cur); [split; reflexivity|].
  rewrite (updateSettings_quiet Result Source Avail enabled cur (store env))
    by auto.
  destruct (sortSync_quiet Result Source Avail cur (store env))
    as (_ & -> & ->).
  split; reflexivity.
Qed.

(** X11. An effect does nothing when none of its dependencies changed: no
    re-sort without a change of the re-sort dependencies, no search and
    no sort synchronisation without a change of the settings
    dependencies, and no call at all when neither changed. *)
Theorem effects_need_dependency_change f prev cur env :
  reachable Avail enabled f -> lastRender f = Some prev ->
  (resortDeps prev = resortDeps cur ->
   resorts (snd (commitEffects enabled f cur env)) = [])
  /\ (settingsDeps prev = settingsDeps cur ->
      searches (snd (commitEffects enabled f cur env)) = []
      /\ commit (session cur) (snd (commitEffects enabled f cur env))
         = session cur)
  /\ (resortDeps prev = resortDeps cur ->
      settingsDeps prev = settingsDeps cur ->
      snd (commitEffects enabled f cur env) = []).
Proof.
  intros Hf Hlast.
  rewrite (later_commit_trace f prev cur env Hf Hlast).
  split; [|split].
  - intros ->%same_resortDeps_iff. cbn [app].
    destruct (same_settingsDeps prev cur); [reflexivity|].
    destruct (updateSettings_shape cur (store env)) as (tl & -> & Htl).
    rewrite resorts_app.
    destruct (sortSync_quiet Result Source Avail cur (store env))
      as (_ & _ & ->).
    destruct Htl; reflexivity.
  - intros ->%same_settingsDeps_iff. rewrite app_nil_r.
    destruct (same_resortDeps prev cur); [split; reflexivity|].
    destruct (resortEffect_cases cur) as [-> | (_ & _ & ->)];
      split; reflexivity.
  - intros ->%same_resortDeps_iff ->%same_settingsDeps_iff. reflexivity.
Qed.

(** X12. A notification always finds a subscribed closure, and that closure
    behaves as [updateSettings] of the render committed last: it never
    acts on stale state. *)
Theorem notification_reads_last_render f cur st :
  reachable Avail enabled f -> lastRender f = Some cur ->
  (exists sub, subscriber f = Some sub
               /\ settingsDeps sub = settingsDeps cur)
  /\ notify Avail enabled f st = updateSettings enabled cur st.
Proof.
  intros Hf Hlast. split.
  - destruct (reachable_mounted Result Source Avail enabled f Hf)
      as [_ (last & sub & Hl & Hs & Hd)].
    exists sub. split; [exact Hs | congruence].
  - apply notify_current; assumption.
Qed.

(** X13. After the first commit the effects and the notifications leave the
    query alone: only the two actions change it. *)
Theorem effects_never_change_query f cur env st s :
  reachable Avail enabled f ->
  query (commit s (snd (commitEffects enabled f cur env))) = query s
  /\ query (commit s (notify Avail enabled f st)) = query s.
Proof.
  intros Hf.
  assert (Hu : forall r' st' s',
             query (commit s' (updateSettings enabled r' st'
                               : trace Result Source Avail)) = query s').
  { intros r' st' s'.
    destruct (updateSettings_shape r' st') as (tl & -> & Htl).
    destruct (sortSync_cases Result Source Avail r' st') as [-> | ->];
      destruct Htl; reflexivity. }
  split.
  - destruct (reachable_has_last f Hf) as [prev Hlast].
    rewrite (later_commit_trace f prev cur env Hf Hlast), commit_app.
    destruct (same_settingsDeps prev cur); cbn [commit fold_left];
      rewrite ?Hu;
      destruct (same_resortDeps prev cur); try reflexivity;
      destruct (resortEffect_cases cur) as [-> | (_ & _ & ->)];
      reflexivity.
  - destruct (reachable_mounted Result Source Avail enabled f Hf)
      as [_ (last & sub & _ & Hsub & _)].
    unfold notify. rewrite Hsub. apply Hu.
Qed.

(** X14. When a search ends without a result (at the commit where [loading]
    has fallen, the result list is empty) and a source is enabled, that
    commit starts the search again. *)
Theorem search_restarts_after_empty_result f prev cur env :
  reachable Avail enabled f -> lastRender f = Some prev ->
  loading (progress prev) = true ->
  loading (progress cur) = false ->
  results (progress cur) = [] ->
  query (session cur) <> [] ->
  filter enabled (sources (store env)) <> [] ->
  executor_commands (snd (commitEffects enabled f cur env))
  = [PerformSearch (query (session cur))
       (filter enabled (sources (store env))) (sortBy (store env))].
Proof.
  intros Hf Hlast Hp Hl Hr Hq Hs.
  rewrite (later_commit_trace f prev cur env Hf Hlast).
  assert (Hd : same_settingsDeps prev cur = false).
  { destruct (same_settingsDeps prev cur) eqn:E; [|reflexivity].
    apply same_settingsDeps_iff in E. unfold settingsDeps in E.
    congruence. }
  rewrite Hd.
  rewrite (updateSettings_retry Result Source Avail enabled cur (store env))
    by auto.
  assert (Hre : (resortEffect cur : trace Result Source Avail) = []).
  { unfold resortEffect. rewrite Hr, andb_false_r. reflexivity. }
  rewrite Hre. destruct (same_resortDeps prev cur); cbn [app];
    rewrite executor_commands_app;
    destruct (sortSync_quiet Result Source Avail cur (store env))
      as (-> & _); reflexivity.
Qed.

(** *** Mount *)

(** X15. Without a [q] parameter, or with an empty one, the first commit
    only synchronises the sort preference: the session keeps its empty
    query, [hasSearched] stays false and the Executor receives nothing,
    whatever the cache holds. *)
Theorem mount_without_query_is_idle p i env :
  location_q env = None \/ location_q env = Some [] ->
  snd (mount enabled p i env) = sortSync (firstRender p i) (store env)
  /\ executor_commands (snd (mount enabled p i env)) = []
  /\ query (commit initialSession (snd (mount enabled p i env))) = []
  /\ hasSearched (commit initialSession (snd (mount enabled p i env)))
     = false.
Proof.
  intros Hloc.
  assert (Htr : snd (mount enabled p i env)
                = sortSync (firstRender p i) (store env)).
  { rewrite (mount_trace Result Source Avail enabled).
    destruct Hloc as [-> | ->]; cbn; apply app_nil_r. }
  rewrite Htr.
  destruct (sortSync_cases Result Source Avail (firstRender p i) (store env))
    as [-> | ->]; repeat split; reflexivity.
Qed.

(** X16. With a non-blank [q], a cache miss and an enabled source, the first
    commit sends the Executor one command: a search with the sort key
    ['default'] of the first render, although the session's sort
    preference after that commit is the store's. *)
Theorem mount_searches_with_default_sort p i env q :
  location_q env = Some q ->
  JsString.whitespace_only q = false ->
  cache_hit q (cache env) = false ->
  filter enabled (sources (store env)) <> [] ->
  executor_commands (snd (mount enabled p i env))
  = [PerformSearch q (filter enabled (sources (store env)))
       (JsString.lit "default")]
  /\ currentSortBy (commit initialSession (snd (mount enabled p i env)))
     = sortBy (store env)
  /\ query (commit initialSession (snd (mount enabled p i env))) = q
  /\ hasSearched (commit initialSession (snd (mount enabled p i env)))
     = true.
Proof.
  intros Hloc Hq Hmiss Hs.
  assert (Htr : snd (mount enabled p i env)
                = sortSync (firstRender p i) (store env)
                  ++ [SetQuery q; SetQuery q; SetHasSearched true;
                      PerformSearch q (filter enabled (sources (store env)))
                        (JsString.lit "default")]).
  { rewrite (mount_trace Result Source Avail enabled), Hloc.
    rewrite (mountRestore_miss Result Source Avail _ q (cache env))
      by auto using nonblank_nonempty.
    cbn [snd].
    rewrite (handleSearch_nonblank Result Source Avail enabled _ _ q Hq).
    destruct (filter enabled (sources (store env))); [congruence|].
    reflexivity. }
  rewrite Htr. unfold sortSync.
  destruct (JsString.eqb (sortBy (store env))
              (currentSortBy (session (firstRender p i)))) eqn:E;
    repeat split; try reflexivity.
  apply JsStringFacts.eqb_eq in E. symmetry. exact E.
Qed.

(** X17. After the first commit [hasSearched] is true exactly when the
    location carries a non-empty query that is either restored from the
    cache or not blank. *)
Theorem mount_hasSearched p i env :
  hasSearched (commit initialSession (snd (mount enabled p i env)))
  = match location_q env with
    | Some q =>
        JsString.truthy q
        && (cache_hit q (cache env) || negb (JsString.whitespace_only q))
    | None => false
    end.
Proof.
  rewrite (mount_trace Result Source Avail enabled), commit_app.
  destruct (sortSync_commit Result Source Avail (firstRender p i)
              (store env) initialSession) as (_ & Hh).
  destruct (mountRestore_shape
              (handleSearch enabled (firstRender p i) (store env))
              (location_q env) (cache env))
    as [[-> | ->] | q c -> Hq -> Hc Hr | q -> Hq Hmiss].
  - exact Hh.
  - exact Hh.
  - apply JsStringFacts.truthy_iff in Hq. rewrite Hq.
    apply length_pos_iff in Hr. cbn [cache_hit].
    rewrite Hc, JsStringFacts.eqb_refl, Hr. reflexivity.
  - apply JsStringFacts.truthy_iff in Hq. rewrite Hq, Hmiss.
    destruct (handleSearch_shape (firstRender p i) (store env) q)
      as [-> | -> _ | -> _]; cbn; try reflexivity. exact Hh.
Qed.

(** *** Reset, then the effects *)

(** X18. After [handleReset] the effects are silent towards the Executor:
    at a commit on the reset session, and at a notification that
    follows it, nothing is searched and nothing re-sorted, whatever the
    settings store and the Executor report. *)
Theorem reset_silences_effects f cur env st s :
  reachable Avail enabled f ->
  session cur
  = commit (Result:=Result) (Source:=Source) (Avail:=Avail) s handleReset ->
  executor_commands (snd (commitEffects enabled f cur env)) = []
  /\ (lastRender f = Some cur ->
      executor_commands (notify Avail enabled f st) = []).
Proof.
  intros Hf Hs.
  assert (Hq : query (session cur) = []) by (rewrite Hs; reflexivity).
  assert (Hh : hasSearched (session cur) = false)
    by (rewrite Hs; reflexivity).
  assert (Hu : forall st',
             executor_commands
               (updateSettings enabled cur st' : trace Result Source Avail)
             = []).
  { intros st'. destruct (updateSettings_shape cur st') as (tl & -> & Htl).
    rewrite executor_commands_app.
    destruct (sortSync_quiet Result Source Avail cur st') as (-> & _).
    destruct Htl; [reflexivity | congruence]. }
  assert (Hr : (resortEffect cur : trace Result Source Avail) = []).
  { unfold resortEffect. rewrite Hh. reflexivity. }
  split.
  - destruct (reachable_has_last f Hf) as [prev Hlast].
    rewrite (later_commit_trace f prev cur env Hf Hlast), Hr.
    rewrite executor_commands_app.
    destruct (same_resortDeps prev cur), (same_settingsDeps prev cur);
      rewrite ?Hu; reflexivity.
  - intros Hlast.
    rewrite (notify_current Result Source Avail enabled f cur st Hf Hlast).
    apply Hu.
Qed.

(** *** Mount, then the settings *)

(** X19. The late-sources race, end to end.  A mount at a non-blank query
    with a cache miss and no enabled source records the query and sets
    [hasSearched] without searching; once the component has re-rendered
    with that session, no result and no search in flight, a
    notification of a store with an enabled source searches for the
    query with the store's sources and sort key. *)
Theorem late_sources_are_searched p i env q next env' st' :
  location_q env = Some q ->
  JsString.whitespace_only q = false ->
  cache_hit q (cache env) = false ->
  filter enabled (sources (store env)) = [] ->
  session next = commit initialSession (snd (mount enabled p i env)) ->
  results (progress next) = [] ->
  loading (progress next) = false ->
  filter enabled (sources st') <> [] ->
  executor_commands (snd (mount enabled p i env)) = []
  /\ executor_commands
       (notify Avail enabled
          (fst (commitEffects enabled (fst (mount enabled p i env))
                  next env')) st')
     = [PerformSearch q (filter enabled (sources st')) (sortBy st')].
Proof.
  intros Hloc Hq Hmiss Hnone Hnext Hr Hl Hs.
  assert (Htr : snd (mount enabled p i env)
                = sortSync (firstRender p i) (store env)
                  ++ [SetQuery q; SetQuery q; SetHasSearched true]).
  { rewrite (mount_trace Result Source Avail enabled), Hloc.
    rewrite (mountRestore_miss Result Source Avail _ q (cache env))
      by auto using nonblank_nonempty.
    cbn [snd].
    rewrite (handleSearch_nonblank Result Source Avail enabled _ _ q Hq).
    rewrite Hnone. reflexivity. }
  assert (Hnq : query (session next) = q).
  { rewrite Hnext, Htr, commit_app. reflexivity. }
  split.
  - rewrite Htr, executor_commands_app.
    destruct (sortSync_quiet Result Source Avail (firstRender p i)
                (store env)) as (-> & _).
    reflexivity.
  - rewrite (notify_current Result Source Avail enabled _ next st').
    + rewrite (updateSettings_retry Result Source Avail enabled next st');
        auto.
      * rewrite executor_commands_app, Hnq.
        destruct (sortSync_quiet Result Source Avail next st') as (-> & _).
        reflexivity.
      * rewrite Hnq. apply nonblank_nonempty, Hq.
    + apply reach_commit, reach_mount.
    + reflexivity.
Qed.

(** X20. A whitespace-only query read from the location is not searched by
    the mount, since [handleSearch] ignores it; but it is stored, and
    the commit that follows searches for it as soon as a source is
    enabled, because the retry of [updateSettings] tests the query for
    emptiness only. *)
Theorem blank_location_query_is_searched p i env q next env' :
  location_q env = Some q -> q <> [] ->
  JsString.whitespace_only q = true ->
  cache_hit q (cache env) = false ->
  session next = commit initialSession (snd (mount enabled p i env)) ->
  loading (progress next) = false ->
  filter enabled (sources (store env')) <> [] ->
  executor_commands (snd (mount enabled p i env)) = []
  /\ executor_commands
       (snd (commitEffects enabled (fst (mount enabled p i env))
               next env'))
     = [PerformSearch q (filter enabled (sources (store env')))
          (sortBy (store env'))].
Proof.
  intros Hloc Hne Hq Hmiss Hnext Hl Hs.
  assert (Htr : snd (mount enabled p i env)
                = sortSync (firstRender p i) (store env) ++ [SetQuery q]).
  { rewrite (mount_trace Result Source Avail enabled), Hloc.
    rewrite (mountRestore_miss Result Source Avail _ q (cache env))
      by assumption.
    cbn [snd].
    rewrite (handleSearch_blank Result Source Avail enabled _ _ q Hq).
    reflexivity. }
  destruct (sortSync_commit Result Source Avail (firstRender p i)
              (store env) initialSession) as (_ & Hh0).
  assert (Hnq : query (session next) = q).
  { rewrite Hnext, Htr, commit_app. reflexivity. }
  assert (Hnh : hasSearched (session next) = false).
  { rewrite Hnext, Htr, commit_app. exact Hh0. }
  split.
  - rewrite Htr, executor_commands_app.
    destruct (sortSync_quiet Result Source Avail (firstRender p i)
                (store env)) as (-> & _).
    reflexivity.
  - rewrite (later_commit_trace (fst (mount enabled p i env))
               (firstRender p i) next env');
      [| apply reach_mount | reflexivity].
    assert (Hd : same_settingsDeps (firstRender p i) next = false).
    { destruct (same_settingsDeps (firstRender p i) next) eqn:E;
        [|reflexivity].
      apply same_settingsDeps_iff in E. unfold settingsDeps in E.
      injection E as E _ _ _ _ _. cbn in E. congruence. }
    rewrite Hd.
    assert (Hre : (resortEffect next : trace Result Source Avail) = []).
    { unfold resortEffect. rewrite Hnh. reflexivity. }
    rewrite Hre.
    rewrite (updateSettings_retry Result Source Avail enabled next
               (store env')) by (auto; congruence).
    destruct (same_resortDeps (firstRender p i) next); cbn [app];
      rewrite executor_commands_app, Hnq;
      destruct (sortSync_quiet Result Source Avail next (store env'))
        as (-> & _); reflexivity.
Qed.

(** *** A change of the store's sort key, end to end *)

(** X21. On a settled component (searched, with results) a notification of a
    store whose sort key differs only adopts the key; the commit that
    follows calls [applySorting] with that key and makes no other call,
    so the change reaches the Executor as one re-sort and no search. *)
Theorem store_sort_change_resorts_once f cur env next :
  reachable Avail enabled f -> lastRender f = Some cur ->
  hasSearched (session cur) = true ->
  results (progress cur) <> [] ->
  sortBy (store env) <> currentSortBy (session cur) ->
  session next
  = commit (session cur) (notify Avail enabled f (store env)) ->
  progress next = progress cur ->
  notify Avail enabled f (store env) = [SetCurrentSortBy (sortBy (store env))]
  /\ snd (commitEffects enabled f next env)
     = [ApplySorting (sortBy (store env))].
Proof.
  intros Hf Hlast Hh Hr Hsort Hnext Hp.
  assert (Hn : notify Avail enabled f (store env)
               = [SetCurrentSortBy (sortBy (store env))]).
  { rewrite (notify_current Result Source Avail enabled f cur _ Hf Hlast).
    rewrite (updateSettings_quiet Result Source Avail enabled cur
               (store env)) by auto.
    unfold sortSync. apply JsStringFacts.eqb_neq in Hsort.
    rewrite Hsort. reflexivity. }
  split; [exact Hn|].
  rewrite Hn in Hnext. cbn in Hnext.
  assert (Hk : currentSortBy (session next) = sortBy (store env))
    by (rewrite Hnext; reflexivity).
  assert (Hnh : hasSearched (session next) = true)
    by (rewrite Hnext; exact Hh).
  rewrite (later_commit_trace f cur next env Hf Hlast).
  assert (Hd1 : same_resortDeps cur next = false).
  { destruct (same_resortDeps cur next) eqn:E; [|reflexivity].
    apply same_resortDeps_iff in E. unfold resortDeps in E.
    injection E as E _ _ _. congruence. }
  assert (Hd2 : same_settingsDeps cur next = false).
  { destruct (same_settingsDeps cur next) eqn:E; [|reflexivity].
    apply same_settingsDeps_iff in E. unfold settingsDeps in E.
    injection E as _ _ _ _ _ E. congruence. }
  rewrite Hd1, Hd2.
  rewrite (updateSettings_quiet Result Source Avail enabled next (store env))
    by (right; rewrite Hp; auto).
  unfold sortSync, resortEffect.
  rewrite Hk, JsStringFacts.eqb_refl, Hnh, Hp.
  apply length_pos_iff in Hr. rewrite Hr. reflexivity.
Qed.

(** *** A cache hit, end to end *)

(** X22. After a mount that restored a cached record, the commit that
    follows, once the Executor shows the hydrated results, re-sorts them
    with the store's sort key and does nothing else: no search is made
    for the restored query. *)
Theorem cache_restore_then_resort p i env q c next :
  location_q env = Some q -> q <> [] ->
  cache env = Some c -> cached_query c = q -> cached_results c <> [] ->
  session next = commit initialSession (snd (mount enabled p i env)) ->
  results (progress next) <> [] ->
  snd (commitEffects enabled (fst (mount enabled p i env)) next env)
  = [ApplySorting (sortBy (store env))].
Proof.
  intros Hloc Hq Hcache Hc Hr Hnext Hres.
  assert (Htr : snd (mount enabled p i env)
                = sortSync (firstRender p i) (store env)
                  ++ [SetQuery q; SetHasSearched true;
                      LoadCachedResults (cached_results c)
                        (cached_availableSources c)]).
  { rewrite (mount_trace Result Source Avail enabled), Hloc, Hcache.
    rewrite (mountRestore_hit Result Source Avail _ q c Hq Hc Hr).
    reflexivity. }
  assert (Hk : currentSortBy (session next) = sortBy (store env)).
  { rewrite Hnext, Htr, commit_app. cbn. unfold sortSync.
    destruct (JsString.eqb (sortBy (store env))
                (currentSortBy (session (firstRender p i)))) eqn:E;
      [|reflexivity].
    apply JsStringFacts.eqb_eq in E. symmetry. exact E. }
  assert (Hnh : hasSearched (session next) = true).
  { rewrite Hnext, Htr, commit_app. reflexivity. }
  rewrite (later_commit_trace (fst (mount enabled p i env))
             (firstRender p i) next env);
    [| apply reach_mount | reflexivity].
  assert (Hd1 : same_resortDeps (firstRender p i) next = false).
  { destruct (same_resortDeps (firstRender p i) next) eqn:E; [|reflexivity].
    apply same_resortDeps_iff in E. unfold resortDeps in E.
    injection E as _ _ E _. cbn in E. congruence. }
  assert (Hd2 : same_settingsDeps (firstRender p i) next = false).
  { destruct (same_settingsDeps (firstRender p i) next) eqn:E;
      [|reflexivity].
    apply same_settingsDeps_iff in E. unfold settingsDeps in E.
    injection E as _ E _ _ _ _. cbn in E. congruence. }
  rewrite Hd1, Hd2.
  rewrite (updateSettings_quiet Result Source Avail enabled next (store env))
    by auto.
  unfold sortSync, resortEffect.
  rewrite Hk, JsStringFacts.eqb_refl, Hnh.
  apply length_pos_iff in Hres. rewrite Hres. reflexivity.
Qed.

End CoordinatorInvariants.

(** ** The scenarios of the specification, run on the model *)

Section Scenarios.
Import Scenario.

Let T : Type := trace nat source (list source).

Example trim_strips_both_ends :
  JsString.trim (JsString.lit "  cats ") = cats
  /\ JsString.trim (JsString.lit " a b ") = JsString.lit "a b"
  /\ JsString.trim [9; 10; 160; 8232; 12288; 65279]%N = [].
Proof. repeat split; reflexivity. Qed.

(** NEL, the Mongolian vowel separator and the zero-width space are not
    white space for [trim]. *)
Example not_white_space :
  map JsString.is_white_space [133; 6158; 8203]%N = [false; false; false].
Proof. reflexivity. Qed.

(** Mount at [?q=cats] with an empty cache and no enabled source: the
    session becomes [{query: 'cats', hasSearched: true}] and nothing is
    searched.  A later notification that reports one enabled source
    searches once, with the query, that source and the store's sort
    key. *)
Example late_sources_scenario :
  let env := at_location cats no_sources None in
  let m := mount enabled idle fns env in
  let next := render cats true (JsString.lit "default") idle in
  let f := fst (commitEffects enabled (fst m) next env) in
  snd m = ([SetQuery cats; SetQuery cats; SetHasSearched true] : T)
  /\ commit initialSession (snd m : T)
     = {| query := cats; hasSearched := true;
          currentSortBy := JsString.lit "default" |}
  /\ notify (list source) enabled f one_source
     = [SetCurrentSortBy rating; PerformSearch cats [s1] rating;
        SetHasSearched true].
Proof. cbv zeta. repeat split; reflexivity. Qed.

(** Mount at [?q=dogs] with [{query: 'dogs', results: [r1],
    availableSources: [s1]}] in the cache: the results are hydrated
    and nothing is searched. *)
Example cache_hit_scenario :
  snd (mount enabled idle fns (at_location dogs one_source
                                 (Some (record dogs))))
  = [SetCurrentSortBy rating; SetQuery dogs; SetHasSearched true;
     LoadCachedResults [7] [s1]].
Proof. reflexivity. Qed.

(** After a mount at a whitespace-only [q] with a source enabled, the
    settings effect of the next commit searches for that query: the
    retry of [updateSettings] tests the query for emptiness, not for
    blankness. *)
Example blank_query_is_retried :
  let env := at_location blank one_source None in
  let m := mount enabled idle fns env in
  let next := render blank false rating idle in
  commit initialSession (snd m : T) = session next
  /\ searches (snd (commitEffects enabled (fst m) next env))
     = [PerformSearch blank [s1] rating].
Proof. cbv zeta. split; reflexivity. Qed.

(** An absent or empty [q] parameter leaves the component idle. *)
Example empty_location_is_idle :
  snd (mount enabled idle fns
         {| store := no_sources; location_q := None;
            cache := Some (record dogs) |}) = ([] : T)
  /\ snd (mount enabled idle fns
            (at_location [] no_sources (Some (record []))))
     = ([] : T).
Proof. split; reflexivity. Qed.

End Scenarios.

(** ** Instances of the theorems *)

Lemma updateSettings_retries_on_late_sources_witness :
  updateSettings Scenario.enabled
    (Scenario.render Scenario.cats true (JsString.lit "default")
       Scenario.idle)
    Scenario.one_source
  = [SetCurrentSortBy Scenario.rating;
     PerformSearch Scenario.cats [Scenario.s1] Scenario.rating;
     SetHasSearched true]
    :> trace nat Scenario.source (list Scenario.source).
Proof.
  apply (updateSettings_retries_on_late_sources nat Scenario.source
           (list Scenario.source) Scenario.enabled
           (Scenario.render Scenario.cats true (JsString.lit "default")
              Scenario.idle)
           Scenario.one_source).
  - vm_compute; discriminate.
  - vm_compute; discriminate.
  - right; reflexivity.
  - reflexivity.
Defined.

Lemma updateSettings_silent_when_loading_or_settled_witness :
  searches
    (updateSettings Scenario.enabled
       (Scenario.render Scenario.cats false (JsString.lit "default")
          Scenario.busy)
       Scenario.one_source
     : trace nat Scenario.source (list Scenario.source)) = []
  /\ searches
       (updateSettings Scenario.enabled
          (Scenario.render Scenario.cats true (JsString.lit "default")
             Scenario.shown)
          Scenario.one_source
        : trace nat Scenario.source (list Scenario.source)) = [].
Proof.
  split.
  - apply (updateSettings_silent_when_loading_or_settled nat
             Scenario.source (list Scenario.source) Scenario.enabled
             (Scenario.render Scenario.cats false (JsString.lit "default")
                Scenario.busy)
             Scenario.one_source).
    left; reflexivity.
  - apply (updateSettings_silent_when_loading_or_settled nat
             Scenario.source (list Scenario.source) Scenario.enabled
             (Scenario.render Scenario.cats true (JsString.lit "default")
                Scenario.shown)
             Scenario.one_source).
    right; split; [reflexivity | discriminate].
Defined.

Lemma mount_restores_from_cache_witness :
  let tr :=
    snd (mount Scenario.enabled Scenario.idle Scenario.fns
           (Scenario.at_location Scenario.dogs Scenario.one_source
              (Some (Scenario.record Scenario.dogs)))) in
  hasSearched (commit initialSession tr) = true
  /\ executor_commands tr = [LoadCachedResults [7] [Scenario.s1]]
  /\ searches tr = [].
Proof.
  destruct (mount_restores_from_cache nat Scenario.source
              (list Scenario.source) Scenario.enabled Scenario.idle
              Scenario.fns
              (Scenario.at_location Scenario.dogs Scenario.one_source
                 (Some (Scenario.record Scenario.dogs)))
              Scenario.dogs (Scenario.record Scenario.dogs))
    as (_ & Hh & _ & He & Hs).
  - reflexivity.
  - vm_compute; discriminate.
  - reflexivity.
  - reflexivity.
  - discriminate.
  - exact (conj Hh (conj He Hs)).
Defined.

Lemma mount_cache_miss_searches_once_witness :
  snd (mount Scenario.enabled Scenario.idle Scenario.fns
         (Scenario.at_location Scenario.cats Scenario.one_source
            (Some (Scenario.record Scenario.dogs))))
  = [SetCurrentSortBy Scenario.rating; SetQuery Scenario.cats;
     SetQuery Scenario.cats; SetHasSearched true;
     PerformSearch Scenario.cats [Scenario.s1] (JsString.lit "default")].
Proof.
  destruct (mount_cache_miss_searches_once nat Scenario.source
              (list Scenario.source) Scenario.enabled
              (fun _ => []) Scenario.idle Scenario.fns
              (Scenario.at_location Scenario.cats Scenario.one_source
                 (Some (Scenario.record Scenario.dogs)))
              Scenario.cats)
    as (_ & Hm & _).
  - reflexivity.
  - vm_compute; discriminate.
  - right. exists (Scenario.record Scenario.dogs).
    split; [reflexivity | left; vm_compute; discriminate].
  - exact Hm.
Defined.

Lemma handleSearch_ignores_blank_witness :
  handleSearch Scenario.enabled
    (Scenario.render Scenario.cats true Scenario.rating Scenario.shown)
    Scenario.one_source Scenario.blank
  = ([] : trace nat Scenario.source (list Scenario.source)).
Proof.
  apply (handleSearch_ignores_blank nat Scenario.source
           (list Scenario.source) Scenario.enabled
           (Scenario.render Scenario.cats true Scenario.rating
              Scenario.shown)
           Scenario.one_source Scenario.blank).
  reflexivity.
Defined.

Lemma handleSearch_searches_nonblank_witness :
  executor_commands
    (handleSearch Scenario.enabled
       (Scenario.render [] false Scenario.rating Scenario.idle)
       Scenario.one_source Scenario.cats
     : trace nat Scenario.source (list Scenario.source))
  = [PerformSearch Scenario.cats [Scenario.s1] Scenario.rating].
Proof.
  apply (handleSearch_searches_nonblank nat Scenario.source
           (list Scenario.source) Scenario.enabled
           (Scenario.render [] false Scenario.rating Scenario.idle)
           Scenario.one_source Scenario.cats).
  - reflexivity.
  - discriminate.
Defined.

Lemma sort_change_resorts_once_witness :
  let f :=
    fst (mount Scenario.enabled Scenario.idle Scenario.fns
           (Scenario.at_location Scenario.cats Scenario.one_source None)) in
  let tr :=
    snd (commitEffects Scenario.enabled f
           (Scenario.render Scenario.cats true Scenario.rating
              Scenario.shown)
           (Scenario.at_location Scenario.cats Scenario.one_source None)) in
  resorts tr = [ApplySorting Scenario.rating] /\ searches tr = [].
Proof.
  apply (sort_change_resorts_once nat Scenario.source
           (list Scenario.source) Scenario.enabled _
           (firstRender Scenario.idle Scenario.fns)).
  - apply reach_mount.
  - reflexivity.
  - vm_compute; discriminate.
  - reflexivity.
  - discriminate.
Defined.

Lemma mount_blank_query_is_inert_witness :
  let tr :=
    snd (mount Scenario.enabled Scenario.idle Scenario.fns
           (Scenario.at_location Scenario.blank Scenario.one_source
              (Some (Scenario.record Scenario.dogs)))) in
  query (commit initialSession tr) = Scenario.blank
  /\ hasSearched (commit initialSession tr) = false
  /\ executor_commands tr = [].
Proof.
  apply (mount_blank_query_is_inert nat Scenario.source
           (list Scenario.source) Scenario.enabled).
  - reflexivity.
  - reflexivity.
  - reflexivity.
Defined.

(** ** Where the specification and the hook part *)

(** C9 as stated fails: after [handleReset] a session whose sort
    preference was ['rating'] still has it, so the session is not the
    initial one. *)
Lemma handleReset_sort_counterexample :
  commit (Result:=nat) (Source:=Scenario.source)
    (Avail:=list Scenario.source)
    {| query := Scenario.cats; hasSearched := true;
       currentSortBy := Scenario.rating |}
    handleReset
  <> initialSession.
Proof. vm_compute. discriminate. Qed.

(** C10 as stated fails: with [q] two spaces and a cached record of that
    very query, mount sets [hasSearched] and hydrates the Executor. *)
Lemma mount_blank_query_cache_hit_counterexample :
  JsString.whitespace_only Scenario.blank = true
  /\ snd (mount Scenario.enabled Scenario.idle Scenario.fns
            (Scenario.at_location Scenario.blank Scenario.no_sources
               (Some (Scenario.record Scenario.blank))))
     = [SetQuery Scenario.blank; SetHasSearched true;
        LoadCachedResults [7] [Scenario.s1]]
  /\ ~ (hasSearched
          (commit initialSession
             (snd (mount Scenario.enabled Scenario.idle Scenario.fns
                     (Scenario.at_location Scenario.blank
                        Scenario.no_sources
                        (Some (Scenario.record Scenario.blank))))))
        = false
        /\ executor_commands
             (snd (mount Scenario.enabled Scenario.idle Scenario.fns
                     (Scenario.at_location Scenario.blank
                        Scenario.no_sources
                        (Some (Scenario.record Scenario.blank)))))
           = []).
Proof.
  split; [reflexivity|]. split; [reflexivity|].
  intros [H _]. vm_compute in H. discriminate.
Qed.

(** ** Instances of the further theorems *)

Section MoreInstances.
Import Scenario.

Lemma reflectQuery_injective_witness :
  JsString.lit "a b" = [97; 32; 98]%N.
Proof.
  apply (reflectQuery_injective nat source (list source)
      (JsString.lit "a b") [97; 32; 98]%N
           (RouterReplace (JsString.lit "/?q=a%20b"))).
  - repeat constructor.
  - repeat constructor.
  - reflexivity.
  - reflexivity.
Defined.

Lemma reflectQuery_location_is_safe_witness :
  exists e,
    (RouterReplace (JsString.lit "/?q=a%26b%3D%F0%9F%98%80")
     : command nat source (list source))
    = RouterReplace (JsString.lit "/?q=" ++ e)
    /\ Forall Uri.safe e
    /\ forall c, In c (JsString.lit " #&+/=?") -> ~ In c e.
Proof.
  apply (reflectQuery_location_is_safe nat source (list source)
           (JsString.lit "a&b=" ++ [55357; 56832]%N)).
  - repeat constructor.
  - reflexivity.
Defined.

Lemma reflectQuery_plain_query_witness :
  @reflectQuery nat source (list source) cats
  = Some (RouterReplace (JsString.lit "/?q=cats")).
Proof.
  apply (reflectQuery_plain_query nat source (list source) cats). reflexivity.
Defined.

Lemma searches_carry_enabled_sources_witness :
  Forall (fun c : command nat source (list source) =>
            match c with
            | PerformSearch q srcs _ =>
                q <> [] /\ srcs <> []
                /\ srcs = filter enabled (sources (store search_env))
            | _ => True
            end)
    (snd (mount enabled idle fns search_env)).
Proof.
  apply (searches_carry_enabled_sources nat source (list source)
      enabled (store search_env)
           (snd (mount enabled idle fns search_env))).
  apply emit_mount.
Defined.

Lemma search_sets_hasSearched_witness :
  hasSearched
    (commit initialSession (snd (mount enabled idle fns search_env)))
  = true.
Proof.
  apply (search_sets_hasSearched nat source (list source)
      enabled (store search_env)
           (snd (mount enabled idle fns search_env)) initialSession).
  - apply emit_mount.
  - vm_compute; discriminate.
Defined.

Lemma batch_sends_at_most_one_command_witness :
  length (executor_commands (snd (mount enabled idle fns search_env))) <= 1.
Proof.
  apply (batch_sends_at_most_one_command nat source (list source)
      enabled (store search_env)
           (snd (mount enabled idle fns search_env))).
  apply emit_mount.
Defined.


Lemma resort_on_dependency_change_witness :
  resorts
    (snd (commitEffects enabled first_fiber
            (render cats true (JsString.lit "default") shown) search_env))
  = [ApplySorting (JsString.lit "default")]
  /\ searches
       (snd (commitEffects enabled first_fiber
               (render cats true (JsString.lit "default") shown)
               search_env))
     = [].
Proof.
  apply (resort_on_dependency_change nat source (list source)
      enabled first_fiber
           (firstRender idle fns)
           (render cats true (JsString.lit "default") shown) search_env).
  - apply reach_mount.
  - reflexivity.
  - intros H; vm_compute in H; discriminate.
  - reflexivity.
  - discriminate.
Defined.

Lemma effects_need_dependency_change_witness :
  snd (commitEffects enabled first_fiber (firstRender idle fns) search_env)
  = [].
Proof.
  apply (effects_need_dependency_change nat source (list source)
      enabled first_fiber
           (firstRender idle fns) (firstRender idle fns) search_env).
  - apply reach_mount.
  - reflexivity.
  - reflexivity.
  - reflexivity.
Defined.

Lemma notification_reads_last_render_witness :
  notify (list source) enabled first_fiber no_sources
  = updateSettings enabled (firstRender idle fns) no_sources.
Proof.
  apply (notification_reads_last_render nat source (list source)
      enabled first_fiber
           (firstRender idle fns) no_sources).
  - apply reach_mount.
  - reflexivity.
Defined.

Lemma effects_never_change_query_witness :
  query (commit (session searching)
           (snd (commitEffects enabled first_fiber searching search_env)))
  = cats.
Proof.
  apply (effects_never_change_query nat source (list source)
      enabled first_fiber searching
           search_env one_source (session searching)).
  apply reach_mount.
Defined.

Lemma search_restarts_after_empty_result_witness :
  executor_commands
    (snd (commitEffects enabled searching_fiber
            (render cats true rating idle) search_env))
  = [PerformSearch cats [s1] rating].
Proof.
  apply (search_restarts_after_empty_result nat source (list source)
      enabled searching_fiber
           searching (render cats true rating idle) search_env).
  - apply reach_commit, reach_mount.
  - reflexivity.
  - reflexivity.
  - reflexivity.
  - reflexivity.
  - vm_compute; discriminate.
  - vm_compute; discriminate.
Defined.

Lemma mount_without_query_is_idle_witness :
  snd (mount enabled idle fns no_location)
  = [SetCurrentSortBy rating].
Proof.
  apply (mount_without_query_is_idle nat source (list source)
      enabled idle fns no_location).
  left; reflexivity.
Defined.

Lemma mount_searches_with_default_sort_witness :
  executor_commands (snd (mount enabled idle fns search_env))
  = [PerformSearch cats [s1] (JsString.lit "default")]
  /\ currentSortBy
       (commit initialSession (snd (mount enabled idle fns search_env)))
     = rating.
Proof.
  destruct (mount_searches_with_default_sort nat source (list source)
      enabled idle fns
              search_env cats) as (H1 & H2 & _).
  - reflexivity.
  - reflexivity.
  - reflexivity.
  - vm_compute; discriminate.
  - exact (conj H1 H2).
Defined.

Lemma reset_silences_effects_witness :
  executor_commands
    (snd (commitEffects enabled searching_fiber
            (render [] false rating shown) search_env))
  = [].
Proof.
  refine (proj1 (reset_silences_effects nat source (list source) enabled
                   searching_fiber (render [] false rating shown)
                   search_env one_source (session searching) _ _)).
  - apply reach_commit, reach_mount.
  - reflexivity.
Defined.

Lemma late_sources_are_searched_witness :
  executor_commands
    (snd (mount enabled idle fns (at_location cats no_sources None)))
  = []
  /\ executor_commands
       (notify (list source) enabled
          (fst (commitEffects enabled
                  (fst (mount enabled idle fns
                          (at_location cats no_sources None)))
                  (render cats true (JsString.lit "default") idle)
                  (at_location cats no_sources None)))
          one_source)
     = [PerformSearch cats [s1] rating].
Proof.
  apply (late_sources_are_searched nat source (list source) enabled idle fns
           (at_location cats no_sources None) cats
           (render cats true (JsString.lit "default") idle)
           (at_location cats no_sources None) one_source).
  - reflexivity.
  - reflexivity.
  - reflexivity.
  - reflexivity.
  - reflexivity.
  - reflexivity.
  - reflexivity.
  - vm_compute; discriminate.
Defined.

Lemma blank_location_query_is_searched_witness :
  executor_commands
    (snd (mount enabled idle fns (at_location blank one_source None)))
  = []
  /\ executor_commands
       (snd (commitEffects enabled
               (fst (mount enabled idle fns
                       (at_location blank one_source None)))
               (render blank false rating idle)
               (at_location blank one_source None)))
     = [PerformSearch blank [s1] rating].
Proof.
  apply (blank_location_query_is_searched nat source (list source)
      enabled idle fns
           (at_location blank one_source None) blank
           (render blank false rating idle)
           (at_location blank one_source None)).
  - reflexivity.
  - vm_compute; discriminate.
  - reflexivity.
  - reflexivity.
  - reflexivity.
  - reflexivity.
  - vm_compute; discriminate.
Defined.

Lemma store_sort_change_resorts_once_witness :
  notify (list source) enabled settled_fiber no_sources
  = [SetCurrentSortBy (JsString.lit "default")]
  /\ snd (commitEffects enabled settled_fiber
            (render cats true (JsString.lit "default") shown)
            (at_location cats no_sources None))
     = [ApplySorting (JsString.lit "default")].
Proof.
  apply (store_sort_change_resorts_once nat source (list source) enabled
           settled_fiber settled (at_location cats no_sources None)
           (render cats true (JsString.lit "default") shown)).
  - apply reach_commit, reach_mount.
  - reflexivity.
  - reflexivity.
  - discriminate.
  - vm_compute; discriminate.
  - reflexivity.
  - reflexivity.
Defined.

Lemma cache_restore_then_resort_witness :
  snd (commitEffects enabled
         (fst (mount enabled idle fns
                 (at_location dogs one_source (Some (record dogs)))))
         (render dogs true rating shown)
         (at_location dogs one_source (Some (record dogs))))
  = [ApplySorting rating].
Proof.
  apply (cache_restore_then_resort nat source (list source) enabled idle fns
           (at_location dogs one_source (Some (record dogs))) dogs
           (record dogs) (render dogs true rating shown)).
  - reflexivity.
  - vm_compute; discriminate.
  - reflexivity.
  - reflexivity.
  - discriminate.
  - reflexivity.
  - discriminate.
Defined.

End MoreInstances.
